(** * webviz_ert.data_loader

    A shallow embedding of [src/webviz_ert/data_loader/__init__.py]: the
    connection registry ([get_connection_info]), the per-server singleton
    ([DataLoader.__new__]), the two transport helpers ([_query], [_get]) and
    the domain operations built on them.

    Python values are a small universe [pyval]; a Python [dict] keeps its
    insertion order, so it is an association list.  The two process-wide
    tables ([connection_info_map], [DataLoader._instances]) are only looked
    up and extended, so they are finite maps.  Exceptions and the
    side effects of a call (log records, HTTP traffic, provider lookups,
    the tables) are threaded through a state-and-exception monad. *)

From Stdlib Require Import ZArith Ascii String.
From stdpp Require Import base option list sorting gmap strings.

Set Warnings "-register-all".
Local Open Scope string_scope.
Local Open Scope list_scope.
Local Open Scope Z_scope.

(** ** Python values *)

(** JSON documents, header and parameter dictionaries, tuples (as [PList])
    and the provider's info mapping.  Floats never influence control flow in
    this module and are left out. *)
Inductive pyval : Type :=
| PNone
| PBool (b : bool)
| PInt (z : Z)
| PStr (s : string)
| PList (l : list pyval)
| PDict (d : list (string * pyval)).

Definition dict : Type := list (string * pyval).

(** [k in d] / [d.get(k)] *)
Fixpoint dict_get (d : dict) (k : string) : option pyval :=
  match d with
  | [] => None
  | (k', v) :: d' => if String.eqb k' k then Some v else dict_get d' k
  end.

(** [d[k] = v]: an existing key keeps its position, a new key is appended. *)
Fixpoint dict_set (d : dict) (k : string) (v : pyval) : dict :=
  match d with
  | [] => [(k, v)]
  | (k', v') :: d' =>
      if String.eqb k' k then (k', v) :: d' else (k', v') :: dict_set d' k v
  end.

(** [{**d, **other}]: the items of [other] are stored into [d] in order. *)
Definition dict_update (d other : dict) : dict :=
  fold_left (fun acc kv => dict_set acc (fst kv) (snd kv)) other d.

Definition dict_keys (d : dict) : list string := map fst d.

(** ** Exceptions *)

Inductive exn_class : Type :=
| RuntimeError
| DataLoaderException
| JSONDecodeError
| KeyError
| IndexError
| TypeError
| ValueError
| OverflowError
| OtherError (name : string).

(** The two formatted messages of the module keep their fields instead of
    the rendered text. *)
Inductive message : Type :=
| QueryFailed (status : Z) (doc : pyval + string)
| FetchFailed (url : string) (status : Z) (body : string)
| Text (s : string).

Record exn : Type := Exn { exn_cls : exn_class; exn_msg : message }.

#[global] Instance exn_class_eq_dec : EqDecision exn_class.
Proof. solve_decision. Defined.

(** [isinstance(e, cls)] for the handlers of this module. *)
Definition isinstance (e : exn) (cls : exn_class) : bool :=
  bool_decide (exn_cls e = cls).

Inductive outcome (A : Type) : Type :=
| Return (a : A)
| Raise (e : exn).
Arguments Return {A} a.
Arguments Raise {A} e.

Definition obind {A B} (m : outcome A) (k : A -> outcome B) : outcome B :=
  match m with
  | Return a => k a
  | Raise e => Raise e
  end.

Definition raise_of {A} (cls : exn_class) (text : string) : outcome A :=
  Raise (Exn cls (Text text)).

Declare Scope outcome_scope.
Delimit Scope outcome_scope with outcome.
Notation "'do' x <- m ; k" := (obind m (fun x => k))
  (at level 10, x name, m at level 100, k at level 200) : outcome_scope.

Fixpoint mapM {A B} (f : A -> outcome B) (l : list A) : outcome (list B) :=
  match l with
  | [] => Return []
  | a :: l' =>
      (do b <- f a; do bs <- mapM f l'; Return (b :: bs))%outcome
  end.

(** ** Subscripting and iteration of Python values *)

Definition chars (s : string) : list pyval :=
  map (fun c => PStr (String c EmptyString)) (list_ascii_of_string s).

(** [v[k]] with a string key *)
Definition getitem (v : pyval) (k : string) : outcome pyval :=
  match v with
  | PDict d =>
      match dict_get d k with
      | Some x => Return x
      | None => Raise (Exn KeyError (Text k))
      end
  | PList _ => raise_of TypeError "list indices must be integers or slices, not str"
  | PStr _ => raise_of TypeError "string indices must be integers"
  | _ => raise_of TypeError "object is not subscriptable"
  end.

(** [v[i]] with a non-negative integer index *)
Definition getitem_int (v : pyval) (i : nat) : outcome pyval :=
  match v with
  | PList l =>
      match l !! i with
      | Some x => Return x
      | None => raise_of IndexError "index out of range"
      end
  | PStr s =>
      match chars s !! i with
      | Some x => Return x
      | None => raise_of IndexError "string index out of range"
      end
  | PDict _ => raise_of KeyError "integer key"
  | _ => raise_of TypeError "object is not subscriptable"
  end.

(** [iter(v)] run to the end *)
Definition iterate (v : pyval) : outcome (list pyval) :=
  match v with
  | PList l => Return l
  | PDict d => Return (map PStr (dict_keys d))
  | PStr s => Return (chars s)
  | _ => raise_of TypeError "object is not iterable"
  end.

(** the operand of [**v] in a dict display *)
Definition mapping (v : pyval) : outcome dict :=
  match v with
  | PDict d => Return d
  | _ => raise_of TypeError "object is not a mapping"
  end.

(** ** Strings *)

(** [sub in s] *)
Fixpoint contains (sub s : string) : bool :=
  String.prefix sub s ||
  match s with
  | EmptyString => false
  | String _ s' => contains sub s'
  end.

Fixpoint drop_chars (n : nat) (s : string) : string :=
  match n, s with
  | S n', String _ s' => drop_chars n' s'
  | _, _ => s
  end.

(** the text before and after the first occurrence of [sep] *)
Fixpoint partition (sep s : string) : option (string * string) :=
  if String.prefix sep s then Some (EmptyString, drop_chars (String.length sep) s)
  else
    match s with
    | EmptyString => None
    | String c s' =>
        match partition sep s' with
        | Some (a, b) => Some (String c a, b)
        | None => None
        end
    end.

(** [s.split(sep, 1)] *)
Definition split1 (s sep : string) : list string :=
  match partition sep s with
  | Some (a, b) => [a; b]
  | None => [s]
  end.

(** [a, b = l] *)
Definition unpack2 (l : list string) : outcome (string * string) :=
  match l with
  | [a; b] => Return (a, b)
  | _ => raise_of ValueError "wrong number of values to unpack"
  end.

(** ** Casting a label to an integer *)

(** The ways [Index.astype(int)] fails on a label.  pandas 1.x, which the
    handler in [get_ensemble_record_data] is written for, reports a label
    that [int] rejects as [TypeError]; later versions let the [ValueError] of
    [int] through; a value outside the 64-bit range is an [OverflowError]. *)
Inductive cast_error : Type :=
| CastTypeError
| CastValueError
| CastOverflowError.

Definition cast_exn (c : cast_error) : exn :=
  match c with
  | CastTypeError => Exn TypeError (Text "Cannot cast Index to dtype int64")
  | CastValueError => Exn ValueError (Text "invalid literal for int() with base 10")
  | CastOverflowError => Exn OverflowError (Text "Python int too large to convert to C long")
  end.

(** ** Tables *)

(** Row and column labels are integers or strings (parquet column names are
    strings).  Cells are opaque to this module: a cell is the value the table
    holds once its columns share one dtype, which is what [DataFrame.values]
    and [transpose] work on. *)
Inductive label : Type :=
| LInt (z : Z)
| LStr (s : string).

Inductive cell : Type :=
| CNaN
| CInt (z : Z)
| CStr (s : string)
| CFloat (repr : string).

(** A [pandas.DataFrame]: the column labels and the labelled rows. *)
Record DataFrame : Type := Frame {
  columns : list label;
  rows : list (label * list cell)
}.

Definition index (df : DataFrame) : list label := map fst (rows df).

(** [pd.DataFrame()] *)
Definition empty_frame : DataFrame := Frame [] [].

Definition cell_at (df : DataFrame) (i j : nat) : option cell :=
  r ← rows df !! i; snd r !! j.

(** [df.transpose()] *)
Definition transpose (df : DataFrame) : DataFrame :=
  Frame (index df)
        (imap (fun j c => (c, map (fun r => default CNaN (snd r !! j)) (rows df)))
              (columns df)).

(** [df.index.astype(int)]: the labels are cast one after the other, by the
    cast of the installed library; the first label that fails decides the
    exception. *)
Definition index_astype_int (cast : label -> Z + cast_error) (idx : list label)
  : outcome (list label) :=
  mapM (fun l => match cast l with
                 | inl z => Return (LInt z)
                 | inr c => Raise (cast_exn c)
                 end) idx.

(** [df.index = idx] *)
Definition set_index (df : DataFrame) (idx : list label) : outcome DataFrame :=
  if bool_decide (length idx = length (rows df))
  then Return (Frame (columns df) (zip_with (fun l r => (l, snd r)) idx (rows df)))
  else raise_of ValueError "Length mismatch".

Definition is_int (l : label) : bool := match l with LInt _ => true | LStr _ => false end.
Definition is_str (l : label) : bool := negb (is_int l).

(** The order of labels of one kind; between kinds Python has none. *)
Definition label_leb (a b : label) : bool :=
  match a, b with
  | LInt x, LInt y => x <=? y
  | LStr s, LStr t => String.leb s t
  | LInt _, LStr _ => true
  | LStr _, LInt _ => false
  end.

Definition label_le (a b : label) : Prop := label_leb a b = true.
Definition row_le (a b : label * list cell) : Prop := label_le (fst a) (fst b).

Fixpoint insert_row (r : label * list cell) (l : list (label * list cell))
  : list (label * list cell) :=
  match l with
  | [] => [r]
  | r' :: l' =>
      if label_leb (fst r) (fst r') then r :: l else r' :: insert_row r l'
  end.

(** Rows in ascending order of their labels; rows already in order stay as
    they are, and rows with equal labels keep their relative order. *)
Fixpoint sort_rows (l : list (label * list cell)) : list (label * list cell) :=
  match l with
  | [] => []
  | r :: l' => insert_row r (sort_rows l')
  end.

(** [df.sort_index()]: an index mixing integers and strings cannot be
    ordered. *)
Definition sort_index (df : DataFrame) : outcome DataFrame :=
  if forallb is_int (index df) || forallb is_str (index df)
  then Return (Frame (columns df) (sort_rows (rows df)))
  else raise_of TypeError "'<' not supported between instances of 'str' and 'int'".

(** ** Process state and effects *)

Record Response : Type := { status_code : Z; content : string }.

(** One HTTP request as handed to [requests.get] / [requests.post]. *)
Inductive call : Type :=
| GET (url : string) (headers : dict) (params : option dict)
| POST (url : string) (json : dict) (headers : dict).

Abbreviation ServerIdentifier := (string * option string)%type.

Record DataLoader : Type := {
  baseurl : string;
  token : option string;
  _graphql_cache : gmap string (list (dict * pyval))
}.

Record state : Type := State {
  connection_info_map : gmap (option string) dict;  (* module global *)
  _instances : gmap ServerIdentifier nat;           (* DataLoader._instances *)
  heap : list DataLoader;                           (* the loaders created so far *)
  log : list exn;                                   (* records sent to logger.error *)
  lookups : list (option string);                   (* calls made to get_info *)
  traffic : list call                               (* requests handed to the HTTP stack *)
}.

Definition initial_state : state := State ∅ ∅ [] [] [] [].

Definition add_log (e : exn) (st : state) : state :=
  State (connection_info_map st) (_instances st) (heap st) (log st ++ [e])
        (lookups st) (traffic st).

Definition add_call (c : call) (st : state) : state :=
  State (connection_info_map st) (_instances st) (heap st) (log st)
        (lookups st) (traffic st ++ [c]).

Definition add_lookup (project_id : option string) (st : state) : state :=
  State (connection_info_map st) (_instances st) (heap st) (log st)
        (lookups st ++ [project_id]) (traffic st).

(** What lies outside the module: the session provider, the HTTP stack, the
    decoders and the integer cast of the table library.  The provider and the
    HTTP stack may answer differently over time, so they see the calls made
    before; every answer of the provider is a mapping of its own. *)
Record env : Type := {
  get_info : list (option string) -> option string -> outcome dict;
  requests_get : list call -> string -> dict -> option dict -> outcome Response;
  requests_post : list call -> string -> dict -> dict -> outcome Response;
  json_loads : string -> outcome pyval;       (* json.loads, Response.json *)
  cast_int : label -> Z + cast_error;         (* Index.astype(int), label by label *)
  read_parquet : string -> outcome DataFrame; (* pd.read_parquet *)
  read_csv : string -> outcome DataFrame
    (* pd.read_csv(_, index_col=0, float_precision="round_trip") *)
}.

Definition M (A : Type) : Type := state -> outcome A * state.

Definition ret {A} (a : A) : M A := fun st => (Return a, st).
Definition raise {A} (e : exn) : M A := fun st => (Raise e, st).
Definition lift {A} (o : outcome A) : M A := fun st => (o, st).
Definition bind {A B} (m : M A) (k : A -> M B) : M B :=
  fun st =>
    match m st with
    | (Return a, st') => k a st'
    | (Raise e, st') => (Raise e, st')
    end.

Declare Scope py_scope.
Delimit Scope py_scope with py.
Notation "'do' x <- m ; k" := (bind m (fun x => k))
  (at level 10, x name, m at level 100, k at level 200) : py_scope.
Notation "m ;; k" := (bind m (fun _ => k))
  (at level 100, k at level 200, right associativity) : py_scope.

(** [try: body except cls as e: handler(e)] *)
Definition try_except {A} (body : M A) (cls : exn_class) (handler : exn -> M A) : M A :=
  fun st =>
    match body st with
    | (Raise e, st') => if isinstance e cls then handler e st' else (Raise e, st')
    | r => r
    end.

Definition gets {A} (f : state -> A) : M A := fun st => (Return (f st), st).
Definition modify (f : state -> state) : M unit := fun st => (Return tt, f st).

(** [logger.error(e)] *)
Definition logger_error (e : exn) : M unit := modify (add_log e).

(** ** The module *)

Section Client.
Variable E : env.

Local Open Scope py_scope.

(** *** Connection registry *)

Definition call_get_info (project_id : option string) : M dict :=
  fun st => (get_info E (lookups st) project_id, add_lookup project_id st).

Definition store_connection_info (project_id : option string) (info : dict) : M unit :=
  modify (fun st => State (<[project_id := info]> (connection_info_map st))
                          (_instances st) (heap st) (log st) (lookups st) (traffic st)).

(** The code changes the provider's mapping in place and stores that very
    object.  The registry holds it by value: this agrees with the code as long
    as the provider builds a mapping of its own on every call. *)
Definition get_connection_info (project_id : option string) : M dict :=
  do known <- gets (fun st => connection_info_map st !! project_id);
  match known with
  | None =>
      do info <- call_get_info project_id;
      do auth <- lift (getitem (PDict info) "auth");
      do tok <- lift (getitem_int auth 1);
      store_connection_info project_id (dict_set info "auth" tok)
  | Some _ => ret tt
  end ;;
  do found <- gets (fun st => connection_info_map st !! project_id);
  match found with
  | Some info => ret info
  | None => raise (Exn KeyError (Text "project_id"))
  end.

(** *** Transport *)

Definition _requests_get (url : string) (headers : dict) (params : option dict)
  : M Response :=
  do before <- gets traffic;
  modify (add_call (GET url headers params)) ;;
  lift (requests_get E before url headers params).

Definition _requests_post (url : string) (json headers : dict) : M Response :=
  do before <- gets traffic;
  modify (add_call (POST url json headers)) ;;
  lift (requests_post E before url json headers).

(** [resp.json()] *)
Definition Response_json (resp : Response) : M pyval :=
  lift (json_loads E (content resp)).

(** *** DataLoader *)

Definition token_value (t : option string) : pyval :=
  match t with
  | Some s => PStr s
  | None => PNone
  end.

(** [super().__new__(cls)] followed by the three attribute stores *)
Definition allocate (o : DataLoader) : M nat :=
  fun st =>
    (Return (length (heap st)),
     State (connection_info_map st) (_instances st) (heap st ++ [o]) (log st)
           (lookups st) (traffic st)).

Definition register (key : ServerIdentifier) (loader : nat) : M unit :=
  modify (fun st => State (connection_info_map st) (<[key := loader]> (_instances st))
                          (heap st) (log st) (lookups st) (traffic st)).

Definition __new__ (baseurl : string) (token : option string) : M nat :=
  do known <- gets (fun st => _instances st !! (baseurl, token));
  match known with
  | Some loader => ret loader
  | None =>
      do loader <- allocate {| baseurl := baseurl; token := token; _graphql_cache := ∅ |};
      register (baseurl, token) loader ;;
      ret loader
  end.

Definition _query (self : DataLoader) (query : string) (kwargs : dict) : M pyval :=
  do resp <- _requests_post (baseurl self +:+ "/gql")
               [("query", PStr query); ("variables", PDict kwargs)]
               [("Token", token_value (token self))];
  do doc <- try_except (do d <- Response_json resp; ret (inl d : pyval + string))
              JSONDecodeError (fun _ => ret (inr (content resp)));
  if negb (status_code resp =? 200) || (if doc is inr _ then true else false)
  then raise (Exn RuntimeError (QueryFailed (status_code resp) doc))
  else match doc with
       | inl d => lift (getitem d "data")
       | inr _ => raise (Exn TypeError (Text "byte indices must be integers"))
       end.

(** What [_query] makes of a response. *)
Definition query_result (resp : Response) : outcome pyval :=
  match json_loads E (content resp) with
  | Return d =>
      if status_code resp =? 200 then getitem d "data"
      else Raise (Exn RuntimeError (QueryFailed (status_code resp) (inl d)))
  | Raise e =>
      if isinstance e JSONDecodeError
      then Raise (Exn RuntimeError (QueryFailed (status_code resp) (inr (content resp))))
      else Raise e
  end.

Definition _get (self : DataLoader) (url : string) (headers params : option dict)
  : M Response :=
  let headers := match headers with None => [] | Some h => h end in
  do resp <- _requests_get (baseurl self +:+ "/" +:+ url)
               (dict_set (dict_update [] headers) "Token" (token_value (token self)))
               params;
  if negb (status_code resp =? 200)
  then raise (Exn DataLoaderException
                  (FetchFailed (baseurl self +:+ "/" +:+ url) (status_code resp)
                               (content resp)))
  else ret resp.

Definition GET_ALL_ENSEMBLES : string :=
"query {
  experiments {
    name
    ensembles {
      id
      timeCreated
      parentEnsemble {
        id
      }
      childEnsembles {
        id
      }
    }
  }
}
".

Definition GET_ENSEMBLE : string :=
"query ($id: ID!) {
  ensemble(id: $id) {
    id
    size
    activeRealizations
    timeCreated
    children {
      ensembleResult{
        id
      }
    }
    userdata
    parent {
      ensembleReference{
        id
      }
    }
    experiment {
      id
      name
    }
  }
}
".

Definition GET_PRIORS : string :=
"query($id: ID!) {
  experiment(id: $id) {
    priors
  }
}
".

(** [[{"name": exp["name"], **ens} for ens in exp["ensembles"]]] *)
Definition experiment_ensembles (exp : pyval) : outcome (list pyval) :=
  (do ensembles <- getitem exp "ensembles";
   do items <- iterate ensembles;
   mapM (fun ens =>
           do name <- getitem exp "name";
           do fields <- mapping ens;
           Return (PDict (dict_update [("name", name)] fields)))
        items)%outcome.

Definition all_ensembles (experiments : pyval) : outcome (list pyval) :=
  (do exps <- iterate experiments;
   do per_experiment <- mapM experiment_ensembles exps;
   Return (concat per_experiment))%outcome.

Definition get_all_ensembles (self : DataLoader) : M pyval :=
  try_except
    (do data <- _query self GET_ALL_ENSEMBLES [];
     do experiments <- lift (getitem data "experiments");
     do records <- lift (all_ensembles experiments);
     ret (PList records))
    RuntimeError
    (fun e => logger_error e ;; ret (PList [])).

Definition get_ensemble (self : DataLoader) (ensemble_id : string) : M pyval :=
  try_except
    (do data <- _query self GET_ENSEMBLE [("id", PStr ensemble_id)];
     lift (getitem data "ensemble"))
    RuntimeError
    (fun e => logger_error e ;; ret (PDict [])).

Definition get_ensemble_responses (self : DataLoader) (ensemble_id : string) : M pyval :=
  try_except
    (do resp <- _get self ("ensembles/" +:+ ensemble_id +:+ "/responses") None None;
     Response_json resp)
    DataLoaderException
    (fun e => logger_error e ;; ret (PDict [])).

Definition get_ensemble_userdata (self : DataLoader) (ensemble_id : string) : M pyval :=
  try_except
    (do resp <- _get self ("ensembles/" +:+ ensemble_id +:+ "/userdata") None None;
     Response_json resp)
    DataLoaderException
    (fun e => logger_error e ;; ret (PDict [])).

Definition get_ensemble_parameters (self : DataLoader) (ensemble_id : string) : M pyval :=
  try_except
    (do resp <- _get self ("ensembles/" +:+ ensemble_id +:+ "/parameters") None None;
     Response_json resp)
    DataLoaderException
    (fun e => logger_error e ;; ret (PList [])).

Definition get_record_labels (self : DataLoader) (ensemble_id name : string) : M pyval :=
  try_except
    (do resp <- _get self ("ensembles/" +:+ ensemble_id +:+ "/records/" +:+ name +:+ "/labels")
                  None None;
     Response_json resp)
    DataLoaderException
    (fun e => logger_error e ;; ret (PList [])).

(** [json.loads(s)] *)
Definition json_loads_value (v : pyval) : M pyval :=
  match v with
  | PStr s => lift (json_loads E s)
  | _ => raise (Exn TypeError (Text "the JSON object must be str, bytes or bytearray"))
  end.

Definition get_experiment_priors (self : DataLoader) (experiment_id : string) : M pyval :=
  try_except
    (do data <- _query self GET_PRIORS [("id", PStr experiment_id)];
     do experiment <- lift (getitem data "experiment");
     do priors <- lift (getitem experiment "priors");
     json_loads_value priors)
    RuntimeError
    (fun e => logger_error e ;; ret (PDict [])).

Definition get_ensemble_parameter_data (self : DataLoader)
  (ensemble_id parameter_name : string) : M DataFrame :=
  try_except
    (do name_params <-
       (if contains "::" parameter_name
        then do name_label <- lift (unpack2 (split1 parameter_name "::"));
             ret (fst name_label, [("label", PStr (snd name_label))])
        else ret (parameter_name, []));
     do resp <- _get self ("ensembles/" +:+ ensemble_id +:+ "/records/" +:+ fst name_params)
                  (Some [("accept", PStr "application/x-parquet")])
                  (Some (snd name_params));
     do table <- lift (read_parquet E (content resp));
     ret (transpose table))
    DataLoaderException
    (fun e => logger_error e ;; ret empty_frame).

(** The second half of [get_ensemble_record_data], after the first [try]. *)
Definition coerce_and_sort (df : DataFrame) : M DataFrame :=
  do df <- try_except
             (do idx <- lift (index_astype_int (cast_int E) (index df));
              lift (set_index df idx))
             TypeError
             (fun _ => ret df);
  lift (sort_index df).

Definition get_ensemble_record_data (self : DataLoader)
  (ensemble_id record_name : string) : M DataFrame :=
  do fetched <-
    try_except
      (do resp <- _get self ("ensembles/" +:+ ensemble_id +:+ "/records/" +:+ record_name)
                    (Some [("accept", PStr "application/x-parquet")]) None;
       do table <- lift (read_parquet E (content resp));
       ret (Some (transpose table)))
      DataLoaderException
      (fun e => logger_error e ;; ret None);
  match fetched with
  | None => ret empty_frame
  | Some df => coerce_and_sort df
  end.

Definition get_ensemble_record_observations (self : DataLoader)
  (ensemble_id record_name : string) : M pyval :=
  try_except
    (do resp <- _get self
                  ("ensembles/" +:+ ensemble_id +:+ "/records/" +:+ record_name +:+ "/observations")
                  None (Some [("realization_index", PInt 0)]);
     Response_json resp)
    DataLoaderException
    (fun e => logger_error e ;; ret (PList [])).

Definition compute_misfit (self : DataLoader) (ensemble_id response_name : string)
  (summary : bool) : M DataFrame :=
  try_except
    (do resp <- _get self "compute/misfits" None
                  (Some [("ensemble_id", PStr ensemble_id);
                         ("response_name", PStr response_name);
                         ("summary_misfits", PBool summary)]);
     lift (read_csv E (content resp)))
    DataLoaderException
    (fun e => logger_error e ;; ret empty_frame).

(** An experiment of the GraphQL answer, seen as its name and its ensembles. *)
Definition is_experiment (exp name : pyval) (ensembles : list dict) : Prop :=
  exists d, exp = PDict d /\ dict_get d "name" = Some name
            /\ dict_get d "ensembles" = Some (PList (map PDict ensembles)).

(** One record per ensemble, experiment after experiment: the experiment's
    name, then the ensemble's fields stored over it. *)
Definition flattened (experiments : list (pyval * list dict)) : list dict :=
  flat_map (fun ex => map (fun ens => dict_update [("name", fst ex)] ens) (snd ex))
           experiments.

(** *** The operations as one family *)

Inductive operation : Type :=
| ListAllEnsembles
| GetEnsemble (ensemble_id : string)
| GetEnsembleResponses (ensemble_id : string)
| GetEnsembleUserdata (ensemble_id : string)
| GetEnsembleParameters (ensemble_id : string)
| GetRecordLabels (ensemble_id name : string)
| GetExperimentPriors (experiment_id : string)
| GetParameterData (ensemble_id parameter_name : string)
| GetRecordData (ensemble_id record_name : string)
| GetRecordObservations (ensemble_id record_name : string)
| ComputeMisfit (ensemble_id response_name : string) (summary : bool).

Inductive answer : Type :=
| Doc (v : pyval)
| Table (df : DataFrame).

Definition perform (op : operation) (self : DataLoader) : M answer :=
  match op with
  | ListAllEnsembles => do v <- get_all_ensembles self; ret (Doc v)
  | GetEnsemble i => do v <- get_ensemble self i; ret (Doc v)
  | GetEnsembleResponses i => do v <- get_ensemble_responses self i; ret (Doc v)
  | GetEnsembleUserdata i => do v <- get_ensemble_userdata self i; ret (Doc v)
  | GetEnsembleParameters i => do v <- get_ensemble_parameters self i; ret (Doc v)
  | GetRecordLabels i n => do v <- get_record_labels self i n; ret (Doc v)
  | GetExperimentPriors i => do v <- get_experiment_priors self i; ret (Doc v)
  | GetParameterData i n => do df <- get_ensemble_parameter_data self i n; ret (Table df)
  | GetRecordData i n => do df <- get_ensemble_record_data self i n; ret (Table df)
  | GetRecordObservations i n => do v <- get_ensemble_record_observations self i n; ret (Doc v)
  | ComputeMisfit i n b => do df <- compute_misfit self i n b; ret (Table df)
  end.

(** The declared empty value of each operation: [list()], [dict()] or
    [pd.DataFrame()]. *)
Definition empty_of (op : operation) : answer :=
  match op with
  | ListAllEnsembles | GetEnsembleParameters _ | GetRecordLabels _ _
  | GetRecordObservations _ _ => Doc (PList [])
  | GetEnsemble _ | GetEnsembleResponses _ | GetEnsembleUserdata _
  | GetExperimentPriors _ => Doc (PDict [])
  | GetParameterData _ _ | GetRecordData _ _ | ComputeMisfit _ _ _ => Table empty_frame
  end.

(** The exception class each operation handles. *)
Definition handled_by (op : operation) : exn_class :=
  match op with
  | ListAllEnsembles | GetEnsemble _ | GetExperimentPriors _ => RuntimeError
  | _ => DataLoaderException
  end.

Definition rest_backed (op : operation) : bool :=
  bool_decide (handled_by op = DataLoaderException).

(** *** The request behind each operation *)

(** The request [_get] hands to the HTTP stack. *)
Definition get_request (self : DataLoader) (url : string) (headers params : option dict)
  : call :=
  GET (baseurl self +:+ "/" +:+ url)
      (dict_set (dict_update [] (default [] headers)) "Token" (token_value (token self)))
      params.

(** The request [_query] hands to the HTTP stack. *)
Definition query_request (self : DataLoader) (query : string) (kwargs : dict) : call :=
  POST (baseurl self +:+ "/gql")
       [("query", PStr query); ("variables", PDict kwargs)]
       [("Token", token_value (token self))].

Definition parquet : option dict := Some [("accept", PStr "application/x-parquet")].

Definition request_of (op : operation) (self : DataLoader) : call :=
  match op with
  | ListAllEnsembles => query_request self GET_ALL_ENSEMBLES []
  | GetEnsemble i => query_request self GET_ENSEMBLE [("id", PStr i)]
  | GetExperimentPriors i => query_request self GET_PRIORS [("id", PStr i)]
  | GetEnsembleResponses i =>
      get_request self ("ensembles/" +:+ i +:+ "/responses") None None
  | GetEnsembleUserdata i =>
      get_request self ("ensembles/" +:+ i +:+ "/userdata") None None
  | GetEnsembleParameters i =>
      get_request self ("ensembles/" +:+ i +:+ "/parameters") None None
  | GetRecordLabels i n =>
      get_request self ("ensembles/" +:+ i +:+ "/records/" +:+ n +:+ "/labels") None None
  | GetParameterData i n =>
      match partition "::" n with
      | Some (name, label) =>
          get_request self ("ensembles/" +:+ i +:+ "/records/" +:+ name) parquet
                      (Some [("label", PStr label)])
      | None =>
          get_request self ("ensembles/" +:+ i +:+ "/records/" +:+ n) parquet (Some [])
      end
  | GetRecordData i n =>
      get_request self ("ensembles/" +:+ i +:+ "/records/" +:+ n) parquet None
  | GetRecordObservations i n =>
      get_request self ("ensembles/" +:+ i +:+ "/records/" +:+ n +:+ "/observations") None
                  (Some [("realization_index", PInt 0)])
  | ComputeMisfit i n b =>
      get_request self "compute/misfits" None
                  (Some [("ensemble_id", PStr i); ("response_name", PStr n);
                         ("summary_misfits", PBool b)])
  end.

(** The HTTP stack's answer to a request issued in state [st]. *)
Definition answer_to (st : state) (c : call) : outcome Response :=
  match c with
  | GET url headers params => requests_get E (traffic st) url headers params
  | POST url json headers => requests_post E (traffic st) url json headers
  end.

(** The transport helper of [op] raises the exception the operation handles:
    [_get] on a status other than 200; [_query] on a status other than 200 or
    on a body that [Response.json] rejects with [JSONDecodeError]. *)
Definition request_failed (op : operation) (self : DataLoader) (st : state) : bool :=
  match answer_to st (request_of op self) with
  | Return resp =>
      if rest_backed op then negb (status_code resp =? 200)
      else match json_loads E (content resp) with
           | Return _ => negb (status_code resp =? 200)
           | Raise e => isinstance e JSONDecodeError
           end
  | Raise _ => false
  end.

(** The three ways an operation can end: it returns without logging; it logs
    one exception of the class it handles and returns its empty value; it
    raises an exception of another class without logging. *)
Inductive ending (op : operation) (st : state) : outcome answer * state -> Prop :=
| Returned a :
    ending op st (Return a, st)
| Degraded e :
    exn_cls e = handled_by op ->
    ending op st (Return (empty_of op), add_log e st)
| Escaped e :
    exn_cls e ≠ handled_by op ->
    ending op st (Raise e, st).

(** *** A process: any sequence of calls into the module *)

Inductive action : Type :=
| Construct (baseurl : string) (token : option string)
| ResolveConnection (project_id : option string)
| Call (loader : nat) (op : operation).

Definition step (a : action) (st : state) : state :=
  match a with
  | Construct b t => snd (__new__ b t st)
  | ResolveConnection p => snd (get_connection_info p st)
  | Call l op =>
      match heap st !! l with
      | Some self => snd (perform op self st)
      | None => st
      end
  end.

Definition run (actions : list action) (st : state) : state :=
  fold_left (fun s a => step a s) actions st.

(** Every registered key leads to a loader object that carries that key. *)
Definition registry_ok (st : state) : Prop :=
  forall key l, _instances st !! key = Some l ->
    exists o, heap st !! l = Some o /\ (baseurl o, token o) = key.

(** Nothing registered or allocated in [st] is lost or changed in [st']. *)
Definition extends (st st' : state) : Prop :=
  (forall key l, _instances st !! key = Some l -> _instances st' !! key = Some l)
  /\ (forall l o, heap st !! l = Some o -> heap st' !! l = Some o).

End Client.

(** ** Sample environments *)

(** A server that answers every request with one fixed response, decoders
    with one fixed result each, and a session provider for one local server. *)
Definition local_info : dict :=
  [("baseurl", PStr "http://127.0.0.1:51820");
   ("auth", PList [PStr "__token__"; PStr "secret"])].

(** The cast of the sample environments: it knows a few decimal labels, one
    of them beyond the 64-bit range, and rejects every other string the way
    pandas 1.x does. *)
Definition sample_casts : list (string * (Z + cast_error)) :=
  [("0", inl 0); ("1", inl 1); ("2", inl 2); ("3", inl 3);
   ("9223372036854775808", inr CastOverflowError)].

Definition sample_cast (l : label) : Z + cast_error :=
  match l with
  | LInt z => inl z
  | LStr s =>
      default (inr CastTypeError)
              (snd <$> find (fun entry => String.eqb (fst entry) s) sample_casts)
  end.

Definition fixed_env (status : Z) (body : string) (doc : outcome pyval)
  (table : outcome DataFrame) : env :=
  {| get_info := fun _ _ => Return local_info;
     requests_get := fun _ _ _ _ => Return {| status_code := status; content := body |};
     requests_post := fun _ _ _ _ => Return {| status_code := status; content := body |};
     json_loads := fun _ => doc;
     cast_int := sample_cast;
     read_parquet := fun _ => table;
     read_csv := fun _ => table |}.

Definition not_json : outcome pyval := Raise (Exn JSONDecodeError (Text "Expecting value")).
Definition not_a_table : outcome DataFrame :=
  Raise (Exn (OtherError "ArrowInvalid") (Text "Parquet magic bytes not found")).

Definition server_error_env : env :=
  fixed_env 500 "Internal Server Error" not_json not_a_table.

Definition local_loader : DataLoader :=
  {| baseurl := "http://127.0.0.1:51820"; token := Some "secret"; _graphql_cache := ∅ |}.

(** The two-experiment answer to [GET_ALL_ENSEMBLES]. *)
Definition two_experiments : pyval :=
  PDict [("data", PDict [("experiments", PList [
    PDict [("name", PStr "A"); ("ensembles", PList [PDict [("id", PInt 1)]])];
    PDict [("name", PStr "B");
           ("ensembles", PList [PDict [("id", PInt 2)]; PDict [("id", PInt 3)]])]])])].

Definition named_ensemble : pyval :=
  PDict [("data", PDict [("experiments", PList [
    PDict [("name", PStr "A");
           ("ensembles", PList [PDict [("id", PInt 1); ("name", PStr "default")]])]])])].

(** A session whose GraphQL answer decodes, but whose [priors] field does not. *)
Definition priors_env : env :=
  {| get_info := fun _ _ => Return local_info;
     requests_get := fun _ _ _ _ => Return {| status_code := 200; content := "answer" |};
     requests_post := fun _ _ _ _ => Return {| status_code := 200; content := "answer" |};
     json_loads := fun s =>
       if String.eqb s "answer"
       then Return (PDict [("data", PDict [("experiment",
                      PDict [("priors", PStr "{not json")])])])
       else not_json;
     cast_int := sample_cast;
     read_parquet := fun _ => not_a_table;
     read_csv := fun _ => not_a_table |}.

(** Record tables as served, with three kinds of column labels. *)
Definition wire_numeric : DataFrame :=
  Frame [LStr "3"; LStr "1"; LStr "2"]
        [(LInt 0, [CInt 30; CInt 10; CInt 20]); (LInt 1, [CInt 31; CInt 11; CInt 21])].

Definition wire_named : DataFrame :=
  Frame [LStr "a"; LStr "b"]
        [(LStr "a", [CInt 1; CInt 2]); (LStr "b", [CInt 3; CInt 4])].

Definition wire_unsorted : DataFrame :=
  Frame [LStr "b"; LStr "a"]
        [(LStr "b", [CInt 1; CInt 2]); (LStr "a", [CInt 3; CInt 4])].

Definition wire_overflow : DataFrame :=
  Frame [LStr "9223372036854775808"] [(LInt 0, [CInt 1])].

(** A server that answers every request with the parquet bytes of [wire]. *)
Definition parquet_env (wire : DataFrame) : env :=
  fixed_env 200 "PAR1" not_json (Return wire).

Definition ok_response (body : string) : Response := {| status_code := 200; content := body |}.

(** The two experiments as names and ensembles. *)
Definition two_experiment_views : list (pyval * list dict) :=
  [(PStr "A", [[("id", PInt 1)]]); (PStr "B", [[("id", PInt 2)]; [("id", PInt 3)]])].


(** ** The lookup facade *)

Section Facade.
Variable E : env.

Local Open Scope py_scope.

(** The call of [DataLoader] on unpacked values: the positional arguments are
    [baseurl] and the optional [token].  Loaders are typed here as their
    attributes are annotated, a [str] and an [Optional[str]].  Python checks
    no annotation and would build a loader around any value; such a loader
    lies outside this model, and the call stops with an error of the model's
    own where the code goes on. *)
Definition DataLoader_call (args : list pyval) : M nat :=
  match args with
  | [] => raise (Exn TypeError (Text "__new__() missing 1 required positional argument: 'baseurl'"))
  | [PStr b] => __new__ b None
  | [PStr b; PNone] => __new__ b None
  | [PStr b; PStr t] => __new__ b (Some t)
  | [_] | [_; _] => raise (Exn (OtherError "undeclared attribute type") (Text "baseurl, token"))
  | _ => raise (Exn TypeError (Text "__new__() takes from 2 to 3 positional arguments"))
  end.

(** [loader.attr]: the object behind a reference *)
Definition deref (loader : nat) : M DataLoader :=
  fun st =>
    match heap st !! loader with
    | Some o => (Return o, st)
    | None => (Raise (Exn (OtherError "dangling reference") (Text "loader")), st)
    end.

Definition get_data_loader (project_id : option string) : M nat :=
  do info <- get_connection_info E project_id;
  DataLoader_call (map snd info).

Definition get_ensembles (project_id : option string) : M pyval :=
  do loader <- get_data_loader project_id;
  do self <- deref loader;
  get_all_ensembles E self.

End Facade.

(** ** More sample environments *)

Definition connection_refused : exn :=
  Exn (OtherError "ConnectionError") (Text "Connection refused").

(** No server is listening, and no storage is configured for the session. *)
Definition offline_env : env :=
  {| get_info := fun _ _ => Raise (Exn RuntimeError (Text "No Storage connection configured"));
     requests_get := fun _ _ _ _ => Raise connection_refused;
     requests_post := fun _ _ _ _ => Raise connection_refused;
     json_loads := fun _ => not_json;
     cast_int := sample_cast;
     read_parquet := fun _ => not_a_table;
     read_csv := fun _ => not_a_table |}.

(** A provider whose answer has a third entry. *)
Definition verbose_info_env : env :=
  {| get_info := fun _ _ => Return (local_info ++ [("cert", PNone)]);
     requests_get := fun _ _ _ _ => Raise connection_refused;
     requests_post := fun _ _ _ _ => Raise connection_refused;
     json_loads := fun _ => not_json;
     cast_int := sample_cast;
     read_parquet := fun _ => not_a_table;
     read_csv := fun _ => not_a_table |}.

Definition wire_square : DataFrame :=
  Frame [LStr "0"; LStr "1"]
        [(LStr "x", [CInt 1; CInt 2]); (LStr "y", [CInt 3; CInt 4])].

(** ** Reading a request *)

Definition call_url (c : call) : string :=
  match c with
  | GET url _ _ | POST url _ _ => url
  end.

Definition call_headers (c : call) : dict :=
  match c with
  | GET _ headers _ | POST _ _ headers => headers
  end.

(** The operations that hand back [resp.json()] as it is. *)
Definition returns_json_body (op : operation) : bool :=
  match op with
  | GetEnsembleResponses _ | GetEnsembleUserdata _ | GetEnsembleParameters _
  | GetRecordLabels _ _ | GetRecordObservations _ _ => true
  | _ => false
  end.

(** A session whose GraphQL answer carries decodable priors. *)
Definition priors_ok_env : env :=
  {| get_info := fun _ _ => Return local_info;
     requests_get := fun _ _ _ _ => Return {| status_code := 200; content := "answer" |};
     requests_post := fun _ _ _ _ => Return {| status_code := 200; content := "answer" |};
     json_loads := fun s =>
       if String.eqb s "answer"
       then Return (PDict [("data", PDict [("experiment",
                      PDict [("priors", PStr "{}")])])])
       else if String.eqb s "{}" then Return (PDict []) else not_json;
     cast_int := sample_cast;
     read_parquet := fun _ => not_a_table;
     read_csv := fun _ => not_a_table |}.

(** A GraphQL error answer: status 200, no data. *)
Definition graphql_error : pyval :=
  PDict [("data", PNone);
         ("errors", PList [PDict [("message", PStr "Ensemble not found")]])].

(** An answer with one experiment that has neither a name nor ensembles. *)
Definition bare_experiment : pyval :=
  PDict [("data", PDict [("experiments", PList [PDict [("ensembles", PList [])]])])].

Definition json_env (doc : pyval) : env := fixed_env 200 "{}" (Return doc) not_a_table.

Definition resolved_info : dict :=
  [("baseurl", PStr "http://127.0.0.1:51820"); ("auth", PStr "secret")].

(** * Properties *)

Ltac crunch :=
  repeat case_match; simplify_eq/=;
  rewrite ?orb_true_r, ?orb_false_r, ?negb_true_iff, ?negb_false_iff in *;
  try done; try congruence.

Section Properties.
Variable E : env.

(** ** Dictionaries *)

Lemma dict_get_set_eq (d : dict) k v : dict_get (dict_set d k v) k = Some v.
Proof.
  induction d as [|[k' v'] d IH]; simpl.
  - by rewrite String.eqb_refl.
  - destruct (String.eqb k' k) eqn:Hk; simpl; rewrite Hk; [done | apply IH].
Qed.

Lemma dict_get_set_ne (d : dict) k k' v :
  k ≠ k' -> dict_get (dict_set d k v) k' = dict_get d k'.
Proof.
  intros Hne. induction d as [|[k0 v0] d IH]; simpl.
  - destruct (String.eqb k k') eqn:Hk; [|done].
    by apply String.eqb_eq in Hk.
  - destruct (String.eqb k0 k) eqn:Hk; simpl.
    + apply String.eqb_eq in Hk as ->.
      destruct (String.eqb k k') eqn:Hk'; [|done].
      by apply String.eqb_eq in Hk'.
    + by rewrite IH.
Qed.

Lemma dict_get_None (d : dict) k : dict_get d k = None <-> k ∉ dict_keys d.
Proof.
  induction d as [|[k' v'] d IH]; simpl.
  - split; [intros _; apply not_elem_of_nil | done].
  - rewrite not_elem_of_cons. destruct (String.eqb k' k) eqn:Hk.
    + apply String.eqb_eq in Hk as ->. split; [done | intros [? _]; done].
    + apply String.eqb_neq in Hk. rewrite IH. split; [intros; split; congruence | tauto].
Qed.

Lemma dict_keys_set (d : dict) k v :
  dict_keys (dict_set d k v) = if dict_get d k is Some _ then dict_keys d else dict_keys d ++ [k].
Proof.
  induction d as [|[k' v'] d IH]; simpl; [done|].
  destruct (String.eqb k' k) eqn:Hk; simpl; [done|].
  rewrite IH. by destruct (dict_get d k).
Qed.

Lemma dict_set_NoDup (d : dict) k v :
  NoDup (dict_keys d) -> NoDup (dict_keys (dict_set d k v)).
Proof.
  intros Hd. rewrite dict_keys_set. destruct (dict_get d k) eqn:Hg; [done|].
  apply NoDup_app. split; [done|]. split; [|apply NoDup_singleton].
  intros x Hx ->%list_elem_of_singleton. by apply dict_get_None in Hg.
Qed.

Lemma dict_update_NoDup (d other : dict) :
  NoDup (dict_keys d) -> NoDup (dict_keys (dict_update d other)).
Proof.
  unfold dict_update. revert d.
  induction other as [|[k v] other IH]; intros d Hd; simpl; [done|].
  apply IH. by apply dict_set_NoDup.
Qed.

Lemma dict_get_update (d other : dict) k :
  NoDup (dict_keys other) ->
  dict_get (dict_update d other) k
  = if dict_get other k is Some v then Some v else dict_get d k.
Proof.
  unfold dict_update. revert d.
  induction other as [|[k0 v0] other IH]; intros d Hnd; [done|].
  apply NoDup_cons in Hnd as [Hk0 Hnd]. cbn [fst] in Hk0.
  cbn [fold_left dict_get fst snd]. rewrite (IH _ Hnd).
  destruct (String.eqb k0 k) eqn:Hk.
  - apply String.eqb_eq in Hk as ->.
    apply dict_get_None in Hk0. rewrite Hk0. apply dict_get_set_eq.
  - apply String.eqb_neq in Hk. by rewrite dict_get_set_ne.
Qed.

(** ** Strings *)

Lemma contains_partition sep s :
  contains sep s = if partition sep s is Some _ then true else false.
Proof.
  induction s as [|c s IH].
  - simpl. by destruct sep.
  - cbn [contains partition]. destruct (String.prefix sep (String c s)); [done|].
    rewrite IH. simpl. by destruct (partition sep s) as [[??]|].
Qed.

(** ** The transport helpers *)

Lemma _get_run self url headers params st :
  _get E self url headers params st
  = (match answer_to E st (get_request self url headers params) with
     | Return resp =>
         if status_code resp =? 200 then Return resp
         else Raise (Exn DataLoaderException
                         (FetchFailed (baseurl self +:+ "/" +:+ url) (status_code resp)
                                      (content resp)))
     | Raise e => Raise e
     end,
     add_call (get_request self url headers params) st).
Proof.
  unfold _get, get_request, _requests_get, bind, gets, modify, lift, raise, ret.
  destruct headers; simpl; crunch.
Qed.

Lemma _query_run self query kwargs st :
  _query E self query kwargs st
  = (match answer_to E st (query_request self query kwargs) with
     | Return resp => query_result E resp
     | Raise e => Raise e
     end,
     add_call (query_request self query kwargs) st).
Proof.
  unfold _query, query_request, query_result, _requests_post, Response_json, try_except,
    bind, gets, modify, lift, raise, ret.
  simpl. crunch.
Qed.

(** C9: every request issued through [_get] carries the header
    [Token] = the loader's own token, and it is the only [Token] entry, also
    when the caller's headers already hold a [Token] entry; the caller's other
    headers are sent as given. *)
Theorem get_token_header_overrides self url headers params st :
  exists sent,
    traffic (snd (_get E self url headers params st))
    = traffic st ++ [GET (baseurl self +:+ "/" +:+ url) sent params]
    /\ dict_get sent "Token" = Some (token_value (token self))
    /\ NoDup (dict_keys sent)
    /\ forall k, k ≠ "Token" ->
         dict_get sent k = dict_get (dict_update [] (default [] headers)) k.
Proof.
  eexists. split; [by rewrite _get_run|]. split; [apply dict_get_set_eq|]. split.
  - apply dict_set_NoDup, dict_update_NoDup. apply NoDup_nil_2.
  - intros k Hk. by apply dict_get_set_ne.
Qed.

(** ** One request per operation *)

Lemma try_except_run {A} (body : M A) cls (empty : A) st :
  try_except body cls (fun e => logger_error e ;; ret empty)%py st
  = match body st with
    | (Raise e, st') =>
        if isinstance e cls then (Return empty, add_log e st') else (Raise e, st')
    | r => r
    end.
Proof.
  unfold try_except, logger_error, bind, modify, ret.
  destruct (body st) as [[a|e] st']; [done|]. by destruct (isinstance e cls).
Qed.

Lemma isinstance_true e cls : isinstance e cls = true <-> exn_cls e = cls.
Proof. unfold isinstance. apply bool_decide_eq_true. Qed.

Lemma isinstance_false e cls : isinstance e cls = false <-> exn_cls e ≠ cls.
Proof. unfold isinstance. apply bool_decide_eq_false. Qed.

(** ** Tables *)

Lemma transpose_columns df : columns (transpose df) = index df.
Proof. done. Qed.

Lemma transpose_index df : index (transpose df) = columns df.
Proof.
  unfold index, transpose. simpl. apply list_eq. intros j.
  rewrite list_lookup_fmap, list_lookup_imap. by destruct (columns df !! j).
Qed.

(** Inside the table, [transpose] swaps the two coordinates. *)
Lemma transpose_cell df i j c :
  cell_at df i j = Some c -> (j < length (columns df))%nat -> cell_at (transpose df) j i = Some c.
Proof.
  unfold cell_at, transpose. simpl. intros Hc Hj.
  destruct (rows df !! i) as [r|] eqn:Hr; [|done]. simpl in Hc.
  apply lookup_lt_is_Some_2 in Hj as [cl Hcl].
  rewrite list_lookup_imap, Hcl. simpl.
  rewrite list_lookup_fmap, Hr. simpl. by rewrite Hc.
Qed.

Lemma label_leb_total a b : label_leb a b = true \/ label_leb b a = true.
Proof.
  destruct a as [x|s], b as [y|t]; simpl; auto.
  - destruct (Z.leb_spec x y); [by left|right]. apply Z.leb_le. lia.
  - apply String.leb_total.
Qed.

Lemma insert_row_perm r l : insert_row r l ≡ₚ r :: l.
Proof.
  induction l as [|r' l IH]; simpl; [done|].
  destruct (label_leb r.1 r'.1); [done|]. by rewrite IH, Permutation_swap.
Qed.

Lemma sort_rows_perm l : sort_rows l ≡ₚ l.
Proof.
  induction l as [|r l IH]; simpl; [done|]. by rewrite insert_row_perm, IH.
Qed.

Lemma insert_row_sorted r l : Sorted row_le l -> Sorted row_le (insert_row r l).
Proof.
  induction 1 as [|r' l Hl IH Hhd]; simpl; [by repeat constructor|].
  destruct (label_leb r.1 r'.1) eqn:Hle.
  - constructor; [by constructor|]. by constructor.
  - constructor; [done|].
    assert (row_le r' r) as Hr'.
    { unfold row_le, label_le. destruct (label_leb_total r.1 r'.1); congruence. }
    destruct Hhd as [|r'' l Hr'']; simpl; [by constructor|].
    destruct (label_leb r.1 r''.1); by constructor.
Qed.

Lemma sort_rows_sorted l : Sorted row_le (sort_rows l).
Proof.
  induction l as [|r l IH]; simpl; [constructor|]. by apply insert_row_sorted.
Qed.

Lemma sort_rows_fixed l : Sorted row_le l -> sort_rows l = l.
Proof.
  induction 1 as [|r l Hl IH Hhd]; simpl; [done|]. rewrite IH.
  destruct Hhd as [|r' l Hr]; simpl; [done|].
  unfold row_le, label_le in Hr. by rewrite Hr.
Qed.

Lemma Sorted_index l : Sorted row_le l <-> Sorted label_le (map fst l).
Proof.
  induction l as [|r l IH]; simpl; [split; constructor|].
  split; intros [Hl Hhd]%Sorted_inv; constructor; try (by apply IH);
    destruct l; simpl in *; constructor; by apply HdRel_inv in Hhd.
Qed.

Lemma index_astype_int_ok cast idx zs :
  Forall2 (fun l z => cast l = inl z) idx zs ->
  index_astype_int cast idx = Return (map LInt zs).
Proof.
  unfold index_astype_int. induction 1 as [|l z idx zs Hl _ IH]; [done|].
  cbn [mapM map]. rewrite Hl. cbn [obind]. by rewrite IH.
Qed.

Lemma index_astype_int_cases cast idx :
  (exists zs, Forall2 (fun l z => cast l = inl z) idx zs
              /\ index_astype_int cast idx = Return (map LInt zs))
  \/ (exists c, index_astype_int cast idx = Raise (cast_exn c)).
Proof.
  unfold index_astype_int. induction idx as [|l idx IH].
  - left. exists []. split; [constructor | done].
  - cbn [mapM]. destruct (cast l) as [z|c] eqn:Hl; cbn [obind]; [|right; by exists c].
    destruct IH as [(zs & Hzs & ->)|(c & ->)]; cbn [obind].
    + left. exists (z :: zs). split; [by constructor | done].
    + right. by exists c.
Qed.

Lemma set_index_ints df zs :
  length zs = length (rows df) ->
  set_index df (map LInt zs)
  = Return (Frame (columns df) (zip_with (fun z r => (LInt z, snd r)) zs (rows df))).
Proof.
  intros Hlen. unfold set_index. rewrite length_map, bool_decide_eq_true_2 by done.
  f_equal. f_equal. clear Hlen. revert zs.
  induction (rows df) as [|r l IH]; intros [|z zs]; simpl; [done..|]. by rewrite IH.
Qed.

Lemma coerce_and_sort_run df st :
  coerce_and_sort E df st
  = (match index_astype_int (cast_int E) (index df) with
     | Return idx => obind (set_index df idx) sort_index
     | Raise e => if isinstance e TypeError then sort_index df else Raise e
     end, st).
Proof.
  unfold coerce_and_sort, try_except, bind, lift, ret.
  destruct (index_astype_int (cast_int E) (index df)) as [idx|e].
  - unfold set_index, raise_of. by destruct (bool_decide _).
  - by destruct (isinstance e TypeError).
Qed.

Lemma coerce_and_sort_state df st : snd (coerce_and_sort E df st) = st.
Proof. by rewrite coerce_and_sort_run. Qed.

Lemma forallb_perm {A} (f : A -> bool) l l' : l ≡ₚ l' -> forallb f l = forallb f l'.
Proof.
  induction 1 as [|x l l' _ IH|x y l|l l' l'' _ IH1 _ IH2]; simpl.
  - done.
  - by rewrite IH.
  - by destruct (f x), (f y).
  - by rewrite IH1.
Qed.

Lemma sort_index_homogeneous df :
  forallb is_int (index df) || forallb is_str (index df) = true ->
  exists out,
    sort_index df = Return out /\ columns out = columns df /\
    rows out ≡ₚ rows df /\ Sorted label_le (index out) /\
    (Sorted label_le (index df) -> out = df).
Proof.
  intros H. unfold sort_index. rewrite H. eexists. split; [done|]. simpl.
  split; [done|]. split; [apply sort_rows_perm|]. split.
  - apply Sorted_index, sort_rows_sorted.
  - intros Hs. destruct df as [cols rws]. simpl. f_equal.
    by apply sort_rows_fixed, Sorted_index.
Qed.

(** ** The table operations on a decoded answer *)

Lemma parameter_name_run n st :
  (if contains "::" n
   then do name_label <- lift (unpack2 (split1 n "::"));
        ret (fst name_label, [("label", PStr (snd name_label))])
   else ret (n, []))%py st
  = (Return (match partition "::" n with
             | Some (name, label) => (name, [("label", PStr label)])
             | None => (n, [])
             end), st).
Proof.
  rewrite contains_partition. unfold split1, bind, lift, ret.
  by destruct (partition "::" n) as [[name label]|].
Qed.

Lemma parameter_data_decoded self i n st resp wire :
  answer_to E st (request_of (GetParameterData i n) self) = Return resp ->
  status_code resp = 200 ->
  read_parquet E (content resp) = Return wire ->
  get_ensemble_parameter_data E self i n st
  = (Return (transpose wire), add_call (request_of (GetParameterData i n) self) st).
Proof.
  intros Hresp Hst Hwire. unfold get_ensemble_parameter_data.
  rewrite try_except_run. unfold bind at 1. rewrite parameter_name_run.
  unfold bind. cbn [request_of] in Hresp |- *. fold parquet.
  destruct (partition "::" n) as [[name label]|]; cbn [fst snd];
    rewrite _get_run, Hresp, Hst; simpl; unfold lift; by rewrite Hwire.
Qed.

Lemma record_data_decoded self i n st resp wire :
  answer_to E st (request_of (GetRecordData i n) self) = Return resp ->
  status_code resp = 200 ->
  read_parquet E (content resp) = Return wire ->
  get_ensemble_record_data E self i n st
  = coerce_and_sort E (transpose wire) (add_call (request_of (GetRecordData i n) self) st).
Proof.
  intros Hresp Hst Hwire. unfold get_ensemble_record_data.
  unfold bind at 1. unfold try_except, bind. cbn [request_of] in Hresp. fold parquet.
  rewrite _get_run, Hresp, Hst. simpl. unfold lift. rewrite Hwire. done.
Qed.

Lemma misfit_decoded self i n b st resp table :
  answer_to E st (request_of (ComputeMisfit i n b) self) = Return resp ->
  status_code resp = 200 ->
  read_csv E (content resp) = Return table ->
  compute_misfit E self i n b st
  = (Return table, add_call (request_of (ComputeMisfit i n b) self) st).
Proof.
  intros Hresp Hst Htable. unfold compute_misfit.
  rewrite try_except_run. unfold bind. cbn [request_of] in Hresp.
  rewrite _get_run, Hresp, Hst. simpl. unfold lift. by rewrite Htable.
Qed.

(** ** Every operation: one request, and what can come out of it *)

Ltac run_operation :=
  unfold perform, get_all_ensembles, get_ensemble, get_ensemble_responses,
    get_ensemble_userdata, get_ensemble_parameters, get_record_labels,
    get_experiment_priors, get_ensemble_parameter_data, get_ensemble_record_data,
    get_ensemble_record_observations, compute_misfit, json_loads_value, Response_json;
  unfold bind at 1;
  rewrite ?try_except_run;
  unfold try_except, bind; rewrite ?parameter_name_run;
  cbn [request_of]; fold parquet;
  rewrite ?_get_run, ?_query_run.

Lemma sort_index_raises df e : sort_index df = Raise e -> exn_cls e = TypeError.
Proof. unfold sort_index, raise_of. intros H. by crunch. Qed.

Lemma coerce_and_sort_raises df st e :
  fst (coerce_and_sort E df st) = Raise e -> exn_cls e ≠ DataLoaderException.
Proof.
  rewrite coerce_and_sort_run. cbn [fst].
  destruct (index_astype_int_cases (cast_int E) (index df)) as [(zs & _ & ->)|(c & ->)].
  - unfold set_index, raise_of. destruct (bool_decide _); cbn [obind].
    + intros ->%sort_index_raises. done.
    + intros [= <-]. done.
  - destruct c; simpl; try (intros [= <-]; done).
    intros ->%sort_index_raises. done.
Qed.

Ltac classify :=
  repeat case_match; simplify_eq;
  first [ apply Returned
        | apply Degraded; by apply isinstance_true
        | apply Escaped; by apply isinstance_false
        | idtac ].

Lemma perform_ending op self st :
  ending op (add_call (request_of op self) st) (perform E op self st).
Proof.
  destruct op; run_operation.
  all: try (destruct (partition "::" parameter_name) as [[name label]|]; cbn [fst snd];
            rewrite _get_run).
  all: unfold lift, ret, raise, logger_error, modify.
  all: classify.
  all: match goal with
       | H : coerce_and_sort _ ?df ?s0 = _ |- _ =>
           pose proof (coerce_and_sort_state df s0) as Hstate;
           pose proof (coerce_and_sort_raises df s0) as Hclass;
           rewrite H in Hstate, Hclass; simpl in Hstate, Hclass; subst
       end.
  - apply Returned.
  - apply Escaped. by apply Hclass.
Qed.

Lemma failed_request_degrades op self st :
  request_failed E op self st = true ->
  exists e,
    exn_cls e = handled_by op /\
    perform E op self st
    = (Return (empty_of op), add_log e (add_call (request_of op self) st)).
Proof.
  unfold request_failed. intros Hfail.
  destruct (answer_to E st (request_of op self)) as [resp|] eqn:Hresp; [|done].
  destruct op; cbn [rest_backed handled_by bool_decide decide_rel] in Hfail;
    simpl in Hfail; cbn [request_of] in Hresp; run_operation.
  all: try (destruct (partition "::" parameter_name) as [[name label]|]; cbn [fst snd];
            rewrite ?_get_run).
  all: rewrite Hresp.
  all: unfold query_result, lift, ret, raise, logger_error, modify.
  all: try destruct (json_loads E (content resp)) as [d|e'].
  all: try apply negb_true_iff in Hfail.
  all: rewrite Hfail.
  all: eexists; (split; [|reflexivity]); done.
Qed.

(** C1, as the code has it: an operation never lets the exception class it
    handles ([DataLoaderException] from [_get], [RuntimeError] from [_query])
    past the client; it logs at most once, and only when it gives back the
    empty value of its shape; and when its transport helper fails (a status
    other than 200, or for GraphQL a body that is not JSON) the failure is
    logged once and the empty value returned. *)
Theorem handled_failures_degrade_to_empty op self st :
  (forall e, fst (perform E op self st) = Raise e -> exn_cls e ≠ handled_by op)
  /\ (log (snd (perform E op self st)) = log st
      \/ exists e, exn_cls e = handled_by op
                /\ fst (perform E op self st) = Return (empty_of op)
                /\ log (snd (perform E op self st)) = log st ++ [e])
  /\ (request_failed E op self st = true ->
      fst (perform E op self st) = Return (empty_of op)
      /\ exists e, exn_cls e = handled_by op
                /\ log (snd (perform E op self st)) = log st ++ [e]).
Proof.
  split; [|split].
  - intros e He. destruct (perform_ending op self st); simplify_eq/=. done.
  - destruct (perform_ending op self st) as [a|e He|e He]; simpl; eauto.
  - intros [e [He ->]]%failed_request_degrades. simpl. eauto.
Qed.

(** C5: when the GET behind a REST-backed operation is answered with a status
    other than 200, the operation returns the empty value of its shape and
    logs exactly one error, the [DataLoaderException] carrying that status and
    body; nothing is raised. *)
Theorem rest_failure_returns_empty op self st resp :
  rest_backed op = true ->
  answer_to E st (request_of op self) = Return resp ->
  status_code resp ≠ 200 ->
  exists e url st',
    perform E op self st = (Return (empty_of op), st')
    /\ e = Exn DataLoaderException (FetchFailed url (status_code resp) (content resp))
    /\ log st' = log st ++ [e]
    /\ traffic st' = traffic st ++ [request_of op self].
Proof.
  intros Hrest Hresp Hstatus. apply Z.eqb_neq in Hstatus.
  destruct op; try discriminate Hrest; cbn [request_of] in Hresp; run_operation.
  all: try (destruct (partition "::" parameter_name) as [[name label]|]; cbn [fst snd];
            rewrite ?_get_run).
  all: rewrite Hresp, Hstatus.
  all: do 3 eexists; (split; [reflexivity|]); done.
Qed.

Lemma perform_traffic op self st :
  traffic (snd (perform E op self st)) = traffic st ++ [request_of op self].
Proof. by destruct (perform_ending op self st). Qed.

Lemma perform_parameter_data_state self i n st :
  snd (perform E (GetParameterData i n) self st)
  = snd (get_ensemble_parameter_data E self i n st).
Proof.
  unfold perform, bind, ret.
  by destruct (get_ensemble_parameter_data E self i n st) as [[?|?] ?].
Qed.

(** C6: for the parameter name [PORO::region1] the request goes to
    [ensembles/{id}/records/PORO] with the query parameter [label=region1];
    for [PORO] it goes to the same path with an empty set of query
    parameters. *)
Theorem parameter_data_label_request self ensemble_id st :
  traffic (snd (get_ensemble_parameter_data E self ensemble_id "PORO::region1" st))
  = traffic st ++
    [GET (baseurl self +:+ "/" +:+ "ensembles/" +:+ ensemble_id +:+ "/records/" +:+ "PORO")
         [("accept", PStr "application/x-parquet"); ("Token", token_value (token self))]
         (Some [("label", PStr "region1")])]
  /\ traffic (snd (get_ensemble_parameter_data E self ensemble_id "PORO" st))
  = traffic st ++
    [GET (baseurl self +:+ "/" +:+ "ensembles/" +:+ ensemble_id +:+ "/records/" +:+ "PORO")
         [("accept", PStr "application/x-parquet"); ("Token", token_value (token self))]
         (Some [])].
Proof.
  rewrite <- !perform_parameter_data_state, !perform_traffic. done.
Qed.

(** ** Where the cells of a transposed table come from *)

Lemma transpose_rows_lookup df j row :
  rows (transpose df) !! j = Some row <->
  exists l, columns df !! j = Some l
            /\ row = (l, map (fun r => default CNaN (snd r !! j)) (rows df)).
Proof.
  unfold transpose. cbn [rows]. rewrite list_lookup_imap.
  destruct (columns df !! j) as [l|]; simpl.
  - split; [intros [= <-]; eauto | intros (l' & [= <-] & ->); done].
  - split; [done | intros (l' & [=] & _)].
Qed.

Lemma column_cell df r j x :
  cell_at df r j = Some x ->
  map (fun r => default CNaN (snd r !! j)) (rows df) !! r = Some x.
Proof.
  unfold cell_at. intros H. rewrite list_lookup_fmap.
  destruct (rows df !! r) as [row|]; [|done]. simpl in *. by rewrite H.
Qed.

Lemma transpose_rows_length df : length (rows (transpose df)) = length (columns df).
Proof. unfold transpose. cbn [rows]. apply length_imap. Qed.

Lemma relabel_own (l : list (label * list cell)) :
  zip_with (fun l' r => (l', snd r)) (map fst l) l = l.
Proof. induction l as [|[a b] l IH]; simpl; [done|]. by rewrite IH. Qed.

Lemma rows_by_column (carries : label -> label -> Prop) wire labels' out_rows :
  Forall2 carries (columns wire) labels' ->
  out_rows ≡ₚ zip_with (fun l' r => (l', snd r)) labels' (rows (transpose wire)) ->
  exists order,
    order ≡ₚ seq 0 (length (columns wire))
    /\ Forall2 (fun j row =>
                 (exists l, columns wire !! j = Some l /\ carries l (fst row))
                 /\ length (snd row) = length (rows wire)
                 /\ forall r x, cell_at wire r j = Some x -> snd row !! r = Some x)
               order out_rows.
Proof.
  intros Hlabels Hperm.
  set (g := fun j => (default (LInt 0) (labels' !! j),
                      map (fun r => default CNaN (snd r !! j)) (rows wire))).
  assert (zip_with (fun l' r => (l', snd r)) labels' (rows (transpose wire))
          = map g (seq 0 (length (columns wire)))) as Hrows.
  { apply list_eq. intros k. rewrite lookup_zip_with, list_lookup_fmap.
    destruct (decide (k < length (columns wire))%nat) as [Hk|Hk].
    - rewrite lookup_seq_lt by done.
      destruct (lookup_lt_is_Some_2 _ _ Hk) as [l Hl].
      destruct (Forall2_lookup_l _ _ _ _ _ Hlabels Hl) as (l' & Hl' & _).
      rewrite (proj2 (transpose_rows_lookup wire k _) (ex_intro _ l (conj Hl eq_refl))).
      rewrite Hl'. simpl. unfold g. by rewrite Hl'.
    - rewrite lookup_seq_ge by lia. simpl.
      rewrite (lookup_ge_None_2 labels') by
        (rewrite <- (Forall2_length _ _ _ Hlabels); lia).
      done. }
  rewrite Hrows in Hperm. apply Permutation_map_inv in Hperm as (order & -> & Horder).
  exists order. split; [done|].
  assert (forall j, j ∈ order -> (j < length (columns wire))%nat) as Hin.
  { intros j Hj. rewrite <- Horder in Hj. by apply elem_of_seq in Hj as [_ ?]. }
  clear Horder Hrows. induction order as [|j order IH]; simpl; constructor.
  - assert (j < length (columns wire))%nat as Hj by (apply Hin; left).
    destruct (lookup_lt_is_Some_2 _ _ Hj) as [l Hl].
    destruct (Forall2_lookup_l _ _ _ _ _ Hlabels Hl) as (l' & Hl' & Hcarries).
    unfold g. rewrite Hl'. simpl. split; [eauto|]. split; [apply length_map|].
    intros r x. apply column_cell.
  - apply IH. intros j' Hj'. apply Hin. by right.
Qed.

Lemma sort_index_returns mid out :
  sort_index mid = Return out ->
  columns out = columns mid /\ rows out ≡ₚ rows mid /\ Sorted label_le (index out)
  /\ (Sorted label_le (index mid) -> out = mid).
Proof.
  intros Hout.
  destruct (forallb is_int (index mid) || forallb is_str (index mid)) eqn:Hhom.
  - destruct (sort_index_homogeneous mid Hhom) as (out' & Hout' & ?).
    by replace out with out' by congruence.
  - unfold sort_index in Hout. by rewrite Hhom in Hout.
Qed.

(** C7, as the code has it: [get_ensemble_parameter_data] returns the
    transpose of the decoded table: its columns are the row labels of the wire
    table, its index the column labels, and the cell in row [r], column [c] of
    the wire table is the cell in row [c], column [r].
    [get_ensemble_record_data], when it returns, returns the transpose with
    its rows re-labelled and sorted: its columns are the row labels of the
    wire table, its index is in ascending order, and its rows are the columns
    of the wire table, each exactly once, each under its own label or the
    integer that label is cast to, with the cells of that column in the order
    of the wire rows.  [compute_misfit] returns the table [read_csv] decoded
    with its first column as the index, not transposed. *)
Theorem parameter_and_record_tables_transposed self i n b st :
  (forall resp wire,
     answer_to E st (request_of (GetParameterData i n) self) = Return resp ->
     status_code resp = 200 ->
     read_parquet E (content resp) = Return wire ->
     exists out,
       fst (get_ensemble_parameter_data E self i n st) = Return out
       /\ columns out = index wire
       /\ index out = columns wire
       /\ Forall (fun row => length (snd row) = length (rows wire)) (rows out)
       /\ forall r c x,
            cell_at wire r c = Some x -> (c < length (columns wire))%nat ->
            cell_at out c r = Some x)
  /\ (forall resp wire out,
        answer_to E st (request_of (GetRecordData i n) self) = Return resp ->
        status_code resp = 200 ->
        read_parquet E (content resp) = Return wire ->
        fst (get_ensemble_record_data E self i n st) = Return out ->
        columns out = index wire
        /\ Sorted label_le (index out)
        /\ exists order,
             order ≡ₚ seq 0 (length (columns wire))
             /\ Forall2 (fun j row =>
                          (exists l, columns wire !! j = Some l
                                     /\ (fst row = l
                                         \/ exists z, cast_int E l = inl z
                                                      /\ fst row = LInt z))
                          /\ length (snd row) = length (rows wire)
                          /\ forall r x, cell_at wire r j = Some x -> snd row !! r = Some x)
                        order (rows out))
  /\ (forall resp table,
        answer_to E st (request_of (ComputeMisfit i n b) self) = Return resp ->
        status_code resp = 200 ->
        read_csv E (content resp) = Return table ->
        fst (compute_misfit E self i n b st) = Return table).
Proof.
  split; [|split].
  - intros resp wire Hresp Hst Hwire.
    rewrite (parameter_data_decoded _ _ _ _ _ _ Hresp Hst Hwire).
    exists (transpose wire). split; [done|]. split; [done|].
    split; [apply transpose_index|]. split; [|intros r c x; apply transpose_cell].
    apply Forall_lookup. intros j row (l & _ & ->)%transpose_rows_lookup.
    apply length_map.
  - intros resp wire out Hresp Hst Hwire.
    rewrite (record_data_decoded _ _ _ _ _ _ Hresp Hst Hwire), coerce_and_sort_run.
    cbn [fst]. rewrite transpose_index.
    destruct (index_astype_int_cases (cast_int E) (columns wire))
      as [(zs & Hzs & ->)|(c & ->)].
    + rewrite set_index_ints
        by (by rewrite <- (Forall2_length _ _ _ Hzs), transpose_rows_length).
      cbn [obind]. intros (Hcols & Hrows & Hsorted & _)%sort_index_returns.
      cbn [columns rows] in Hcols, Hrows. split; [done|]. split; [done|].
      apply (rows_by_column
               (fun l l' => l' = l \/ exists z, cast_int E l = inl z /\ l' = LInt z)
               wire (map LInt zs)).
      * apply Forall2_fmap_r. eapply Forall2_impl; [exact Hzs|].
        intros l z Hl. right. by exists z.
      * by rewrite zip_with_fmap_l.
    + destruct c; simpl; try done.
      intros (Hcols & Hrows & Hsorted & _)%sort_index_returns.
      split; [done|]. split; [done|].
      apply (rows_by_column
               (fun l l' => l' = l \/ exists z, cast_int E l = inl z /\ l' = LInt z)
               wire (columns wire)).
      * apply Forall2_same_length_lookup. split; [done|].
        intros j l l' Hl Hl'. left. congruence.
      * rewrite <- (transpose_index wire). unfold index. by rewrite relabel_own.
  - intros resp table Hresp Hst Htable.
    by rewrite (misfit_decoded _ _ _ _ _ _ _ Hresp Hst Htable).
Qed.

Lemma index_relabelled zs (l : list (label * list cell)) :
  length zs = length l ->
  map fst (zip_with (fun z r => (LInt z, snd r)) zs l) = map LInt zs.
Proof.
  revert l. induction zs as [|z zs IH]; intros [|r l]; simpl; try done.
  intros [= Hlen]. by rewrite IH.
Qed.

Lemma forallb_is_int_ints zs : forallb is_int (map LInt zs) = true.
Proof. by induction zs. Qed.

(** C2, as the code has it.  The index that [get_ensemble_record_data]
    coerces is that of the transposed table, the column labels of the wire
    table.  When the library casts every label to an integer, the index
    becomes those integers and the rows are in ascending order of them.  When
    the cast fails with [TypeError] on string labels, nothing is raised, the
    labels stay strings, and the rows are still sorted, by the order of
    strings: rows already in that order stay as they are.  When the cast
    fails with another exception (a label beyond the 64-bit range), that
    exception leaves the operation. *)
Theorem record_data_coerced_and_sorted self i n st resp wire :
  answer_to E st (request_of (GetRecordData i n) self) = Return resp ->
  status_code resp = 200 ->
  read_parquet E (content resp) = Return wire ->
  (forall zs,
     Forall2 (fun l z => cast_int E l = inl z) (columns wire) zs ->
     exists out,
       fst (get_ensemble_record_data E self i n st) = Return out
       /\ index out ≡ₚ map LInt zs
       /\ Sorted label_le (index out)
       /\ rows out ≡ₚ zip_with (fun z r => (LInt z, snd r)) zs (rows (transpose wire)))
  /\ (forall e,
        index_astype_int (cast_int E) (columns wire) = Raise e ->
        exn_cls e = TypeError ->
        forallb is_str (columns wire) = true ->
        exists out,
          fst (get_ensemble_record_data E self i n st) = Return out
          /\ index out ≡ₚ columns wire
          /\ Sorted label_le (index out)
          /\ rows out ≡ₚ rows (transpose wire)
          /\ (Sorted label_le (columns wire) -> out = transpose wire))
  /\ (forall e,
        index_astype_int (cast_int E) (columns wire) = Raise e ->
        exn_cls e ≠ TypeError ->
        fst (get_ensemble_record_data E self i n st) = Raise e).
Proof.
  intros Hresp Hstatus Hwire.
  rewrite (record_data_decoded _ _ _ _ _ _ Hresp Hstatus Hwire), coerce_and_sort_run.
  cbn [fst]. rewrite transpose_index. split; [|split].
  - intros zs Hzs. rewrite (index_astype_int_ok _ _ _ Hzs).
    assert (length zs = length (rows (transpose wire))) as Hlen
      by (by rewrite <- (Forall2_length _ _ _ Hzs), transpose_rows_length).
    rewrite (set_index_ints _ _ Hlen). cbn [obind].
    destruct (sort_index_homogeneous
                (Frame (columns (transpose wire))
                       (zip_with (fun z r => (LInt z, snd r)) zs (rows (transpose wire)))))
      as (out & -> & Hcols & Hrows & Hsorted & _).
    { unfold index. cbn [rows]. by rewrite (index_relabelled _ _ Hlen), forallb_is_int_ints. }
    exists out. split; [done|]. split; [|done].
    unfold index. rewrite (Permutation_map fst Hrows).
    cbn [rows]. by rewrite (index_relabelled _ _ Hlen).
  - intros e -> He Hstr. apply isinstance_true in He. rewrite He.
    destruct (sort_index_homogeneous (transpose wire))
      as (out & -> & Hcols & Hrows & Hsorted & Hfixed).
    { rewrite transpose_index, Hstr. apply orb_true_r. }
    exists out. split; [done|]. split; [|split; [done|split; [done|]]].
    + unfold index. rewrite (Permutation_map fst Hrows).
      fold (index (transpose wire)). by rewrite transpose_index.
    + intros Hs. apply Hfixed. by rewrite transpose_index.
  - intros e -> He. apply isinstance_false in He. by rewrite He.
Qed.

(** ** Listing the ensembles *)

Lemma experiment_ensembles_flat exp name ensembles :
  is_experiment exp name ensembles ->
  experiment_ensembles exp
  = Return (map (fun ens => PDict (dict_update [("name", name)] ens)) ensembles).
Proof.
  intros (d & -> & Hname & Hens). unfold experiment_ensembles. simpl.
  rewrite Hens, Hname. simpl. clear Hens.
  induction ensembles as [|ens ensembles IH]; simpl; [done|].
  by rewrite IH.
Qed.

Lemma all_ensembles_flat exps views :
  Forall2 (fun e v => is_experiment e (fst v) (snd v)) exps views ->
  all_ensembles (PList exps) = Return (map PDict (flattened views)).
Proof.
  unfold all_ensembles, flattened. simpl. intros H.
  assert (mapM experiment_ensembles exps
          = Return (map (fun v => map (fun ens => PDict (dict_update [("name", fst v)] ens))
                                      (snd v)) views)) as ->.
  { induction H as [|e v exps views Hv _ IH]; simpl; [done|].
    by rewrite (experiment_ensembles_flat _ _ _ Hv), IH. }
  simpl. f_equal. clear H.
  induction views as [|v views IH]; simpl; [done|].
  by rewrite map_app, map_map, IH.
Qed.

Lemma get_all_ensembles_flat self st data exps views :
  fst (_query E self GET_ALL_ENSEMBLES [] st) = Return data ->
  getitem data "experiments" = Return (PList exps) ->
  Forall2 (fun e v => is_experiment e (fst v) (snd v)) exps views ->
  get_all_ensembles E self st
  = (Return (PList (map PDict (flattened views))),
     add_call (query_request self GET_ALL_ENSEMBLES []) st).
Proof.
  intros Hq Hexps Hviews. unfold get_all_ensembles.
  rewrite try_except_run. unfold bind. rewrite _query_run in Hq |- *.
  cbn [fst] in Hq. rewrite Hq. unfold lift. rewrite Hexps.
  by rewrite (all_ensembles_flat _ _ Hviews).
Qed.

(** C8: on a successful GraphQL answer, [get_all_ensembles] returns one record
    per ensemble, experiment after experiment and ensemble after ensemble
    within each, each record being the experiment's name with the ensemble's
    fields merged in. *)
Theorem all_ensembles_in_experiment_order self st data exps views :
  fst (_query E self GET_ALL_ENSEMBLES [] st) = Return data ->
  getitem data "experiments" = Return (PList exps) ->
  Forall2 (fun e v => is_experiment e (fst v) (snd v)) exps views ->
  fst (get_all_ensembles E self st)
  = Return (PList (map PDict
      (flat_map (fun ex => map (fun ens => dict_update [("name", fst ex)] ens) (snd ex))
                views)))
  /\ log (snd (get_all_ensembles E self st)) = log st.
Proof.
  intros Hq Hexps Hviews.
  by rewrite (get_all_ensembles_flat _ _ _ _ _ Hq Hexps Hviews).
Qed.

(** C10: in the flattened output the [name] of a record is the ensemble's own
    [name] when the ensemble object has that key, and the experiment's name
    otherwise. *)
Theorem ensemble_name_overrides_experiment self st data exps views :
  fst (_query E self GET_ALL_ENSEMBLES [] st) = Return data ->
  getitem data "experiments" = Return (PList exps) ->
  Forall2 (fun e v => is_experiment e (fst v) (snd v)) exps views ->
  Forall (fun v => Forall (fun ens => NoDup (dict_keys ens)) (snd v)) views ->
  exists records,
    fst (get_all_ensembles E self st) = Return (PList (map PDict records))
    /\ Forall2 (fun (ne : pyval * dict) r =>
                  dict_get r "name" = Some (default (fst ne) (dict_get (snd ne) "name")))
               (flat_map (fun ex => map (pair (fst ex)) (snd ex)) views) records.
Proof.
  intros Hq Hexps Hviews Hnd.
  rewrite (get_all_ensembles_flat _ _ _ _ _ Hq Hexps Hviews).
  eexists. split; [done|]. unfold flattened. clear Hq Hexps Hviews.
  induction Hnd as [|[name ensembles] views Hens _ IH]; simpl; [constructor|].
  apply Forall2_app; [|done]. clear IH. simpl in Hens.
  induction Hens as [|ens ensembles Hens _ IH]; simpl; constructor; [|done].
  rewrite (dict_get_update _ _ _ Hens). simpl.
  by destruct (dict_get ens "name").
Qed.

(** ** The connection registry *)

Lemma connection_info_cached p st info :
  connection_info_map st !! p = Some info ->
  get_connection_info E p st = (Return info, st).
Proof.
  intros H. unfold get_connection_info, bind, gets, ret. simpl.
  rewrite H. simpl. by rewrite H.
Qed.

(** C4: for a project id not resolved before (the absent id included), the
    first [get_connection_info] asks the provider once and stores what it
    returns, the [auth] pair replaced by its second component; the second
    call returns that stored mapping and leaves the state, and so the list of
    provider lookups, as it is. *)
Theorem connection_info_resolved_once p st info auth tok :
  connection_info_map st !! p = None ->
  get_info E (lookups st) p = Return info ->
  dict_get info "auth" = Some auth ->
  getitem_int auth 1 = Return tok ->
  let st1 := snd (get_connection_info E p st) in
  fst (get_connection_info E p st) = Return (dict_set info "auth" tok)
  /\ lookups st1 = lookups st ++ [p]
  /\ connection_info_map st1 !! p = Some (dict_set info "auth" tok)
  /\ get_connection_info E p st1 = (Return (dict_set info "auth" tok), st1)
  /\ lookups (snd (get_connection_info E p st1)) = lookups st ++ [p].
Proof.
  intros Hnew Hinfo Hauth Htok.
  set (stored := dict_set info "auth" tok).
  set (st' := State (<[p := stored]> (connection_info_map st))
                    (_instances st) (heap st) (log st) (lookups st ++ [p]) (traffic st)).
  assert (get_connection_info E p st = (Return stored, st')) as Hrun.
  { unfold get_connection_info, bind, gets, ret, call_get_info, lift,
      store_connection_info, modify.
    rewrite Hnew, Hinfo. simpl. rewrite Hauth, Htok. simpl.
    by rewrite lookup_insert_eq. }
  assert (connection_info_map st' !! p = Some stored) as Hstored
    by apply lookup_insert_eq.
  rewrite Hrun. simpl. split; [done|]. split; [done|]. split; [done|].
  by rewrite (connection_info_cached p st' stored Hstored).
Qed.

(** ** The loader registry *)

Lemma new_known b t st l :
  _instances st !! (b, t) = Some l -> __new__ b t st = (Return l, st).
Proof. intros H. unfold __new__, bind, gets, ret. by rewrite H. Qed.

Lemma new_fresh b t st :
  _instances st !! (b, t) = None ->
  __new__ b t st
  = (Return (length (heap st)),
     State (connection_info_map st) (<[(b, t) := length (heap st)]> (_instances st))
           (heap st ++ [{| baseurl := b; token := t; _graphql_cache := ∅ |}])
           (log st) (lookups st) (traffic st)).
Proof.
  intros H. unfold __new__, bind, gets, ret, allocate, register, modify. by rewrite H.
Qed.

Lemma new_registers b t st :
  exists l, fst (__new__ b t st) = Return l
            /\ _instances (snd (__new__ b t st)) !! (b, t) = Some l.
Proof.
  destruct (_instances st !! (b, t)) as [l|] eqn:H.
  - exists l. by rewrite (new_known _ _ _ _ H).
  - exists (length (heap st)). rewrite (new_fresh _ _ _ H). simpl.
    split; [done|]. apply lookup_insert_eq.
Qed.

Lemma extends_refl st : extends st st.
Proof. by split. Qed.

Lemma extends_trans st1 st2 st3 : extends st1 st2 -> extends st2 st3 -> extends st1 st3.
Proof. intros [H1 H2] [H3 H4]. split; eauto. Qed.

Lemma new_extends b t st : extends st (snd (__new__ b t st)).
Proof.
  destruct (_instances st !! (b, t)) as [l|] eqn:H.
  - rewrite (new_known _ _ _ _ H). apply extends_refl.
  - rewrite (new_fresh _ _ _ H). split; simpl.
    + intros key l Hkey. rewrite lookup_insert_ne; [done|]. congruence.
    + intros l o Hl. by apply lookup_app_l_Some.
Qed.

Lemma new_ok b t st : registry_ok st -> registry_ok (snd (__new__ b t st)).
Proof.
  intros Hok. destruct (_instances st !! (b, t)) as [l|] eqn:H.
  - by rewrite (new_known _ _ _ _ H).
  - rewrite (new_fresh _ _ _ H). intros key l. simpl.
    destruct (decide (key = (b, t))) as [->|Hne].
    + rewrite lookup_insert_eq. intros [= <-]. eexists.
      split; [by apply list_lookup_middle | done].
    + rewrite lookup_insert_ne by done. intros (o & Ho & Hkey)%Hok.
      exists o. split; [|done]. by apply lookup_app_l_Some.
Qed.

Lemma connection_info_registry p st :
  _instances (snd (get_connection_info E p st)) = _instances st
  /\ heap (snd (get_connection_info E p st)) = heap st.
Proof.
  unfold get_connection_info, bind, gets, ret, raise, call_get_info, lift,
    store_connection_info, modify.
  crunch.
Qed.

Lemma perform_registry op self st :
  _instances (snd (perform E op self st)) = _instances st
  /\ heap (snd (perform E op self st)) = heap st.
Proof. by destruct (perform_ending op self st). Qed.

Lemma step_keeps a st :
  (registry_ok st -> registry_ok (step E a st)) /\ extends st (step E a st).
Proof.
  destruct a as [b t|p|l op]; simpl.
  - split; [apply new_ok | apply new_extends].
  - destruct (connection_info_registry p st) as [Hi Hh].
    unfold registry_ok, extends. rewrite Hi, Hh. done.
  - destruct (heap st !! l) as [self|]; [|split; [done | apply extends_refl]].
    destruct (perform_registry op self st) as [Hi Hh].
    unfold registry_ok, extends. rewrite Hi, Hh. done.
Qed.

Lemma run_keeps actions st :
  (registry_ok st -> registry_ok (run E actions st)) /\ extends st (run E actions st).
Proof.
  unfold run. revert st. induction actions as [|a actions IH]; intros st; simpl.
  - split; [done | apply extends_refl].
  - destruct (step_keeps a st) as [Hok Hext], (IH (step E a st)) as [Hok' Hext'].
    split; [auto | by eapply extends_trans].
Qed.

Lemma initial_ok : registry_ok initial_state.
Proof. intros key l H. simpl in H. by rewrite lookup_empty in H. Qed.

(** C3: in any state the process can reach, constructing a loader twice with
    the same key gives the same object and the second construction changes
    nothing; a different key gives a different object; and whatever the
    process does afterwards, the key stays registered to that object, the
    object stays as it was, and constructing again still returns it. *)
Theorem loader_singleton_per_key actions b t :
  let st := run E actions initial_state in
  let st1 := snd (__new__ b t st) in
  exists l o,
    fst (__new__ b t st) = Return l
    /\ __new__ b t st1 = (Return l, st1)
    /\ heap st1 !! l = Some o /\ baseurl o = b /\ token o = t
    /\ (forall b' t', (b', t') ≠ (b, t) ->
         exists l', fst (__new__ b' t' st1) = Return l' /\ l' ≠ l)
    /\ (forall more,
         _instances (run E more st1) !! (b, t) = Some l
         /\ heap (run E more st1) !! l = Some o
         /\ fst (__new__ b t (run E more st1)) = Return l).
Proof.
  intros st st1.
  assert (registry_ok st1) as Hok1.
  { apply new_ok. apply run_keeps, initial_ok. }
  destruct (new_registers b t st) as (l & Hl & Hreg). fold st1 in Hreg.
  destruct (Hok1 _ _ Hreg) as (o & Ho & Hkey). injection Hkey as Hb Ht.
  exists l, o. split; [done|]. split; [by apply new_known|].
  split; [done|]. split; [done|]. split; [done|]. split.
  - intros b' t' Hne. destruct (_instances st1 !! (b', t')) as [l'|] eqn:H'.
    + exists l'. rewrite (new_known _ _ _ _ H'). split; [done|].
      intros ->. destruct (Hok1 _ _ H') as (o' & Ho' & Hkey').
      rewrite Ho in Ho'. injection Ho' as <-. congruence.
    + exists (length (heap st1)). rewrite (new_fresh _ _ _ H'). split; [done|].
      apply lookup_lt_Some in Ho. lia.
  - intros more. destruct (run_keeps more st1) as [_ [Hinst Hheap]].
    split; [by apply Hinst|]. split; [by apply Hheap|].
    by rewrite (new_known _ _ _ _ (Hinst _ _ Hreg)).
Qed.

End Properties.

(** * The module at work *)

Example split1_examples :
  split1 "PORO::region1" "::" = ["PORO"; "region1"] /\
  split1 "a::b::c" "::" = ["a"; "b::c"] /\
  split1 "PORO" "::" = ["PORO"] /\
  contains "::" "PORO::region1" = true /\ contains "::" "PORO:" = false.
Proof. repeat split; reflexivity. Qed.

(** * Further properties of the module *)

Section Coverage.
Variable E : env.

Ltac run_call :=
  unfold perform, get_all_ensembles, get_ensemble, get_ensemble_responses,
    get_ensemble_userdata, get_ensemble_parameters, get_record_labels,
    get_experiment_priors, get_ensemble_parameter_data, get_ensemble_record_data,
    get_ensemble_record_observations, compute_misfit, json_loads_value, Response_json;
  unfold bind at 1;
  rewrite ?try_except_run;
  unfold try_except, bind; rewrite ?parameter_name_run;
  cbn [request_of]; fold parquet;
  rewrite ?_get_run, ?_query_run.

(** ** Splitting a parameter name *)

Lemma append_cons c a b : String c a +:+ b = String c (a +:+ b).
Proof. reflexivity. Qed.

Lemma append_nil b : EmptyString +:+ b = b.
Proof. reflexivity. Qed.

Lemma prefix_drop sep s :
  String.prefix sep s = true -> s = sep +:+ drop_chars (String.length sep) s.
Proof.
  revert s. induction sep as [|a sep IH]; intros s H.
  - by destruct s.
  - destruct s as [|b s]; simpl in H; [done|].
    destruct (ascii_dec a b) as [->|]; [|done].
    rewrite append_cons. cbn [String.length drop_chars]. f_equal. by apply IH.
Qed.

Lemma prefix_app p x y : String.prefix p x = true -> String.prefix p (x +:+ y) = true.
Proof.
  revert x. induction p as [|a p IH]; intros x H; [by destruct x, y|].
  destruct x as [|b x]; simpl in H; [done|]. rewrite append_cons. simpl.
  destruct (ascii_dec a b); [by apply IH | done].
Qed.

Lemma prefix_common a b c : String.prefix (a +:+ b) (a +:+ c) = String.prefix b c.
Proof.
  induction a as [|x a IH]; [done|]. rewrite !append_cons. simpl.
  destruct (ascii_dec x x); [done | congruence].
Qed.

Lemma prefix_self_app a b : String.prefix a (a +:+ b) = true.
Proof.
  induction a as [|x a IH]; [by destruct b|]. rewrite append_cons. simpl.
  destruct (ascii_dec x x); [done | congruence].
Qed.

Lemma partition_join sep s a b :
  partition sep s = Some (a, b) -> s = a +:+ sep +:+ b.
Proof.
  revert a. induction s as [|c s IH]; intros a; cbn [partition].
  - destruct (String.prefix sep "") eqn:Hp; [|done].
    intros [= <- <-]. by apply prefix_drop in Hp.
  - destruct (String.prefix sep (String c s)) eqn:Hp.
    + intros [= <- <-]. by apply prefix_drop in Hp.
    + destruct (partition sep s) as [[a' b']|] eqn:Hs; [|done].
      intros [= <- <-]. rewrite append_cons. f_equal. by apply IH.
Qed.

Lemma partition_first sep s a b :
  sep ≠ EmptyString -> partition sep s = Some (a, b) -> contains sep a = false.
Proof.
  intros Hsep. revert a. induction s as [|c s IH]; intros a; cbn [partition].
  - destruct (String.prefix sep "") eqn:Hp; [|done].
    intros [= <- <-]. by destruct sep.
  - destruct (String.prefix sep (String c s)) eqn:Hp.
    + intros [= <- <-]. by destruct sep.
    + destruct (partition sep s) as [[a' b']|] eqn:Hs; [|done].
      intros [= <- <-]. cbn [contains]. rewrite (IH a' eq_refl), orb_false_r.
      apply partition_join in Hs. subst s.
      destruct (String.prefix sep (String c a')) eqn:Hp'; [|done].
      apply (prefix_app _ _ (sep +:+ b')) in Hp'. rewrite append_cons in Hp'. congruence.
Qed.

Lemma parameter_data_state self i n st :
  snd (perform E (GetParameterData i n) self st)
  = snd (get_ensemble_parameter_data E self i n st).
Proof.
  unfold perform, bind, ret.
  by destruct (get_ensemble_parameter_data E self i n st) as [[?|?] ?].
Qed.

(** X1: whatever the parameter name, the one request of
    [get_ensemble_parameter_data] goes to [records/{name}] where either the
    parameter name has no [::], [name] is all of it and no query parameter is
    sent, or the parameter name is [name::label], [name] has no [::] in it
    (the split is at the first separator) and [label] is sent as the query
    parameter. *)
Theorem parameter_name_split_at_first_separator self i n st :
  exists name params,
    traffic (snd (get_ensemble_parameter_data E self i n st))
    = traffic st ++
      [get_request self ("ensembles/" +:+ i +:+ "/records/" +:+ name) parquet (Some params)]
    /\ ((contains "::" n = false /\ name = n /\ params = [])
        \/ exists label,
             n = name +:+ "::" +:+ label /\ contains "::" name = false
             /\ params = [("label", PStr label)]).
Proof.
  rewrite <- parameter_data_state, perform_traffic. cbn [request_of].
  rewrite contains_partition.
  destruct (partition "::" n) as [[name label]|] eqn:Hn.
  - exists name, [("label", PStr label)]. split; [done|]. right. exists label.
    split; [by apply partition_join|]. split; [|done].
    by apply (partition_first "::" n name label).
  - exists n, []. split; [done|]. by left.
Qed.

(** ** What every operation does and does not do *)

(** X2: the one request an operation issues is addressed below the loader's
    base URL and carries the loader's token in its [Token] header, for the
    GraphQL operations as for the REST ones. *)
Theorem every_request_carries_token op self st :
  exists c,
    traffic (snd (perform E op self st)) = traffic st ++ [c]
    /\ dict_get (call_headers c) "Token" = Some (token_value (token self))
    /\ String.prefix (baseurl self +:+ "/") (call_url c) = true.
Proof.
  exists (request_of op self). split; [apply perform_traffic|].
  assert (forall u h p,
             dict_get (call_headers (get_request self u h p)) "Token"
             = Some (token_value (token self))
             /\ String.prefix (baseurl self +:+ "/") (call_url (get_request self u h p))
                = true) as Hget.
  { intros u h p. unfold get_request. simpl. split; [apply dict_get_set_eq|].
    rewrite prefix_common. apply prefix_self_app. }
  assert (forall q k,
             dict_get (call_headers (query_request self q k)) "Token"
             = Some (token_value (token self))
             /\ String.prefix (baseurl self +:+ "/") (call_url (query_request self q k))
                = true) as Hquery.
  { intros q k. unfold query_request. simpl. split; [done|].
    rewrite prefix_common. apply (prefix_self_app "/" "gql"). }
  destruct op; cbn [request_of]; try apply Hget; try apply Hquery.
  destruct (partition "::" parameter_name) as [[name label]|]; apply Hget.
Qed.

(** X4: a domain operation leaves the connection cache, the loader registry,
    the loaders and the provider alone; it adds one request to the traffic
    and at most one record to the log. *)
Theorem operation_touches_only_log_and_traffic op self st :
  let st' := snd (perform E op self st) in
  connection_info_map st' = connection_info_map st
  /\ _instances st' = _instances st
  /\ heap st' = heap st
  /\ lookups st' = lookups st
  /\ traffic st' = traffic st ++ [request_of op self]
  /\ (log st' = log st \/ exists e, log st' = log st ++ [e]).
Proof.
  destruct (perform_ending E op self st) as [a|e He|e He]; simpl; eauto 10.
Qed.

(** ** Invariants of a running process *)

Lemma connection_info_effect p st :
  let st' := snd (get_connection_info E p st) in
  _instances st' = _instances st /\ heap st' = heap st
  /\ log st' = log st /\ traffic st' = traffic st
  /\ (connection_info_map st !! p ≠ None -> st' = st)
  /\ (connection_info_map st !! p = None ->
      lookups st' = lookups st ++ [p]
      /\ (connection_info_map st' = connection_info_map st
          \/ exists v, fst (get_connection_info E p st) = Return v
                       /\ connection_info_map st' = <[p := v]> (connection_info_map st))).
Proof.
  unfold get_connection_info, bind, gets, ret, raise, call_get_info, lift,
    store_connection_info, modify. simpl.
  destruct (connection_info_map st !! p) as [info|] eqn:Hp; simpl.
  - rewrite Hp. simpl. repeat split; done.
  - destruct (get_info E (lookups st) p) as [info|e]; simpl;
      [|repeat split; try done; auto].
    destruct (dict_get info "auth") as [auth|]; simpl;
      [|repeat split; try done; auto].
    destruct (getitem_int auth 1) as [tok|e]; simpl;
      [|repeat split; try done; auto].
    rewrite lookup_insert_eq. simpl. repeat split; try done. right. eauto.
Qed.

Lemma new_effect b t st :
  let st' := snd (__new__ b t st) in
  connection_info_map st' = connection_info_map st /\ log st' = log st
  /\ lookups st' = lookups st /\ traffic st' = traffic st.
Proof.
  destruct (_instances st !! (b, t)) as [l|] eqn:H.
  - by rewrite (new_known _ _ _ _ H).
  - by rewrite (new_fresh _ _ _ H).
Qed.

(** A property of the loaders that every step of a process keeps. *)
Lemma heap_invariant (P : DataLoader -> Prop) :
  (forall b t, P {| baseurl := b; token := t; _graphql_cache := ∅ |}) ->
  forall actions st, Forall P (heap st) -> Forall P (heap (run E actions st)).
Proof.
  intros Hnew actions. unfold run.
  induction actions as [|a actions IH]; intros st Hst; simpl; [done|].
  apply IH. destruct a as [b t|p|l op]; simpl.
  - destruct (_instances st !! (b, t)) as [l|] eqn:H.
    + by rewrite (new_known _ _ _ _ H).
    + rewrite (new_fresh _ _ _ H). simpl. apply Forall_app. split; [done|].
      by constructor.
  - by destruct (connection_info_effect p st) as (_ & -> & _).
  - destruct (heap st !! l) as [self|]; [|done].
    by destruct (perform_registry E op self st) as [_ ->].
Qed.

(** X5: the per-query cache of a loader is never written: in every state a
    process can reach, the [_graphql_cache] of every loader is empty. *)
Theorem graphql_cache_never_written actions :
  Forall (fun o => _graphql_cache o = ∅) (heap (run E actions initial_state)).
Proof. apply heap_invariant; [done | constructor]. Qed.

(** X6: loaders exist only through the registry: in every state a process
    can reach there are exactly as many loaders as registered keys. *)
Theorem one_loader_per_registered_key actions :
  size (_instances (run E actions initial_state))
  = length (heap (run E actions initial_state)).
Proof.
  assert (forall st, size (_instances st) = length (heap st) ->
                     size (_instances (run E actions st)) = length (heap (run E actions st)))
    as Hrun.
  { unfold run. induction actions as [|a actions IH]; intros st Hst; simpl; [done|].
    apply IH. destruct a as [b t|p|l op]; simpl.
    - destruct (_instances st !! (b, t)) as [l|] eqn:H.
      + by rewrite (new_known _ _ _ _ H).
      + rewrite (new_fresh _ _ _ H). simpl.
        rewrite map_size_insert_None by done. rewrite length_app. simpl. lia.
    - by destruct (connection_info_effect p st) as (-> & -> & _).
    - destruct (heap st !! l) as [self|]; [|done].
      by destruct (perform_registry E op self st) as [-> ->]. }
  apply Hrun. simpl. by rewrite map_size_empty.
Qed.

(** X7: whatever a process does, the log holds nothing but the exceptions the
    operations handle: [RuntimeError]s of [_query] and
    [DataLoaderException]s of [_get]. *)
Theorem log_holds_only_handled_failures actions :
  Forall (fun e => exn_cls e = RuntimeError \/ exn_cls e = DataLoaderException)
         (log (run E actions initial_state)).
Proof.
  assert (forall st,
             Forall (fun e => exn_cls e = RuntimeError \/ exn_cls e = DataLoaderException)
                    (log st) ->
             Forall (fun e => exn_cls e = RuntimeError \/ exn_cls e = DataLoaderException)
                    (log (run E actions st))) as Hrun.
  { unfold run. induction actions as [|a actions IH]; intros st Hst; simpl; [done|].
    apply IH. destruct a as [b t|p|l op]; simpl.
    - by destruct (new_effect b t st) as (_ & -> & _).
    - by destruct (connection_info_effect p st) as (_ & _ & -> & _).
    - destruct (heap st !! l) as [self|]; [|done].
      destruct (perform_ending E op self st) as [a|e He|e He]; simpl; try done.
      apply Forall_app. split; [done|]. constructor; [|done].
      rewrite He. destruct op; simpl; auto. }
  apply Hrun. constructor.
Qed.

(** ** The connection registry over time *)

Lemma step_lookups a st :
  exists asked,
    lookups (step E a st) = lookups st ++ asked
    /\ (asked = [] -> connection_info_map (step E a st) = connection_info_map st).
Proof.
  destruct a as [b t|q|l op]; simpl.
  - exists []. destruct (new_effect b t st) as (-> & _ & -> & _).
    by rewrite app_nil_r.
  - destruct (connection_info_effect q st) as (_ & _ & _ & _ & Hknown & Hnew).
    destruct (connection_info_map st !! q) as [known|] eqn:Hq.
    + exists []. rewrite Hknown by done. by rewrite app_nil_r.
    + exists [q]. by destruct (Hnew eq_refl) as [-> _].
  - exists []. rewrite app_nil_r. destruct (heap st !! l) as [self|]; [|done].
    by destruct (perform_ending E op self st).
Qed.

Lemma run_lookups more st :
  exists asked, lookups (run E more st) = lookups st ++ asked.
Proof.
  unfold run. revert st. induction more as [|a more IH]; intros st; simpl.
  - exists []. by rewrite app_nil_r.
  - destruct (step_lookups a st) as (asked1 & H1 & _).
    destruct (IH (step E a st)) as (asked2 & H2).
    exists (asked1 ++ asked2). by rewrite H2, H1, app_assoc.
Qed.

(** X8: the connection cache changes only through a lookup at the provider:
    over a stretch of the process in which the provider is not asked
    (loaders constructed, operations run, resolved ids resolved again), the
    cache at the end is the cache at the start, and an id resolved at the
    start still resolves to the same mapping with no further change. *)
Theorem connection_info_kept_without_lookup more st :
  lookups (run E more st) = lookups st ->
  connection_info_map (run E more st) = connection_info_map st
  /\ forall p info,
       connection_info_map st !! p = Some info ->
       get_connection_info E p (run E more st) = (Return info, run E more st).
Proof.
  intros Hquiet.
  assert (connection_info_map (run E more st) = connection_info_map st) as Hrun.
  { revert st Hquiet. induction more as [|a more IH]; intros st Hquiet; [done|].
    change (run E (a :: more) st) with (run E more (step E a st)) in *.
    destruct (step_lookups a st) as (asked1 & H1 & Hmap).
    destruct (run_lookups more (step E a st)) as (asked2 & H2).
    assert (asked1 = []) as ->.
    { rewrite H2, H1, <- app_assoc in Hquiet.
      rewrite <- (app_nil_r (lookups st)) in Hquiet at 2.
      by apply app_inv_head, app_eq_nil in Hquiet as [-> _]. }
    rewrite app_nil_r in H1. rewrite (IH _ (eq_trans Hquiet (eq_sym H1))).
    by apply Hmap. }
  split; [done|]. intros p info Hp. apply connection_info_cached. by rewrite Hrun.
Qed.

(** X9: a resolution that fails (the provider raises, or its answer has no
    usable [auth] entry) caches nothing: the provider was asked once, the
    cache is as before, and the next call for the same id asks the provider
    again. *)
Theorem failed_resolution_is_not_cached p st e :
  connection_info_map st !! p = None ->
  fst (get_connection_info E p st) = Raise e ->
  let st' := snd (get_connection_info E p st) in
  connection_info_map st' = connection_info_map st
  /\ lookups st' = lookups st ++ [p]
  /\ lookups (snd (get_connection_info E p st')) = lookups st ++ [p; p].
Proof.
  intros Hp He st'.
  destruct (connection_info_effect p st) as (_ & _ & _ & _ & _ & Hnew).
  destruct (Hnew Hp) as [Hlook Hmap]. fold st' in Hlook, Hmap.
  assert (connection_info_map st' = connection_info_map st) as Hsame.
  { destruct Hmap as [|(v & Hv & _)]; [done | congruence]. }
  split; [done|]. split; [done|].
  destruct (connection_info_effect p st') as (_ & _ & _ & _ & _ & Hnew').
  rewrite Hsame in Hnew'. destruct (Hnew' Hp) as [-> _].
  by rewrite Hlook, <- app_assoc.
Qed.

(** ** What the operations make of an answer *)

(** X10: what [_query] makes of a response.  A body that [Response.json]
    rejects raises [RuntimeError] with the status and the raw body, also when
    the status is 200; a decoded body with another status raises
    [RuntimeError] with the status and the document; a decoded body with
    status 200 gives [doc["data"]]; any other exception of the decoder passes
    through. *)
Theorem query_outcome self query kwargs st resp :
  answer_to E st (query_request self query kwargs) = Return resp ->
  (forall e, json_loads E (content resp) = Raise e -> exn_cls e = JSONDecodeError ->
     fst (_query E self query kwargs st)
     = Raise (Exn RuntimeError (QueryFailed (status_code resp) (inr (content resp)))))
  /\ (forall d, json_loads E (content resp) = Return d -> status_code resp ≠ 200 ->
     fst (_query E self query kwargs st)
     = Raise (Exn RuntimeError (QueryFailed (status_code resp) (inl d))))
  /\ (forall d, json_loads E (content resp) = Return d -> status_code resp = 200 ->
     fst (_query E self query kwargs st) = getitem d "data")
  /\ (forall e, json_loads E (content resp) = Raise e -> exn_cls e ≠ JSONDecodeError ->
     fst (_query E self query kwargs st) = Raise e).
Proof.
  intros Hresp. rewrite _query_run, Hresp. unfold query_result. simpl.
  repeat split.
  - intros e -> He. apply isinstance_true in He. by rewrite He.
  - intros d -> Hs. apply Z.eqb_neq in Hs. by rewrite Hs.
  - intros d -> ->. done.
  - intros e -> He. apply isinstance_false in He. by rewrite He.
Qed.

Lemma getitem_raises v k e :
  getitem v k = Raise e -> exn_cls e = KeyError \/ exn_cls e = TypeError.
Proof.
  unfold getitem, raise_of. intros H. destruct v; simplify_eq/=; auto.
  destruct (dict_get d k); simplify_eq/=; auto.
Qed.

(** X11: a GraphQL answer with status 200 whose document has no usable
    [data] (the key is missing, the document is not an object, or [data] is
    null, as in an error answer) is not treated as a failure by [_query]: the
    three GraphQL operations raise the [KeyError] or [TypeError] of the
    subscript, and log nothing. *)
Theorem graphql_answer_without_data_escapes op self st resp doc :
  rest_backed op = false ->
  answer_to E st (request_of op self) = Return resp ->
  status_code resp = 200 ->
  json_loads E (content resp) = Return doc ->
  (exists e, getitem doc "data" = Raise e) \/ getitem doc "data" = Return PNone ->
  exists e,
    perform E op self st = (Raise e, add_call (request_of op self) st)
    /\ (exn_cls e = KeyError \/ exn_cls e = TypeError).
Proof.
  intros Hgql Hresp Hst Hdoc Hdata.
  destruct op; try discriminate Hgql; cbn [request_of] in Hresp; run_call.
  all: rewrite Hresp; unfold query_result; rewrite Hdoc, Hst; simpl.
  all: destruct Hdata as [[e He]| ->];
    [rewrite He; destruct (getitem_raises _ _ _ He) as [Hc|Hc];
     unfold isinstance; rewrite Hc; simpl; eauto
    |simpl; eauto].
Qed.

(** X12: an exception of the HTTP stack itself (no connection, a time-out)
    is not a [DataLoaderException] or [RuntimeError] of the helpers: it
    leaves every operation as it is, and nothing is logged. *)
Theorem transport_exception_propagates op self st e :
  answer_to E st (request_of op self) = Raise e ->
  exn_cls e ≠ handled_by op ->
  perform E op self st = (Raise e, add_call (request_of op self) st).
Proof.
  intros Hresp Hcls. apply isinstance_false in Hcls.
  destruct op; cbn [request_of handled_by] in Hresp, Hcls; run_call.
  all: try (destruct (partition "::" parameter_name) as [[name label]|]; cbn [fst snd];
            rewrite ?_get_run).
  all: rewrite Hresp; simpl; by rewrite ?Hcls.
Qed.

(** X13: a 200 answer whose body the table decoder rejects makes the three
    table operations raise the decoder's exception; nothing is logged and no
    empty table is returned. *)
Theorem table_decoder_failure_escapes op self st resp e :
  answer_to E st (request_of op self) = Return resp ->
  status_code resp = 200 ->
  match op with
  | GetParameterData _ _ | GetRecordData _ _ => read_parquet E (content resp) = Raise e
  | ComputeMisfit _ _ _ => read_csv E (content resp) = Raise e
  | _ => False
  end ->
  exn_cls e ≠ DataLoaderException ->
  perform E op self st = (Raise e, add_call (request_of op self) st).
Proof.
  intros Hresp Hst Hdec Hcls. apply isinstance_false in Hcls.
  destruct op; try done; cbn [request_of] in Hresp; run_call.
  all: try (destruct (partition "::" parameter_name) as [[name label]|]; cbn [fst snd];
            rewrite ?_get_run).
  all: rewrite Hresp, Hst; simpl; unfold lift; rewrite Hdec; simpl; by rewrite ?Hcls.
Qed.

(** X14: on a 200 answer the five JSON operations over REST return the
    decoded body as it is, whatever its shape, and log nothing. *)
Theorem rest_json_body_returned_as_is op self st resp v :
  returns_json_body op = true ->
  answer_to E st (request_of op self) = Return resp ->
  status_code resp = 200 ->
  json_loads E (content resp) = Return v ->
  perform E op self st = (Return (Doc v), add_call (request_of op self) st).
Proof.
  intros Hop Hresp Hst Hv.
  destruct op; try discriminate Hop; cbn [request_of] in Hresp; run_call.
  all: rewrite Hresp, Hst; simpl; unfold lift; by rewrite Hv.
Qed.

(** X15: [get_experiment_priors] decodes the [priors] field a second time:
    a string field gives the document it denotes; a field that is not a
    string (null for an experiment without priors) raises [TypeError], which
    is not handled. *)
Theorem priors_field_decoded_again self i st data experiment priors :
  fst (_query E self GET_PRIORS [("id", PStr i)] st) = Return data ->
  getitem data "experiment" = Return experiment ->
  getitem experiment "priors" = Return priors ->
  match priors with
  | PStr s =>
      forall v, json_loads E s = Return v ->
        get_experiment_priors E self i st
        = (Return v, add_call (query_request self GET_PRIORS [("id", PStr i)]) st)
  | _ =>
      exists e,
        exn_cls e = TypeError /\
        get_experiment_priors E self i st
        = (Raise e, add_call (query_request self GET_PRIORS [("id", PStr i)]) st)
  end.
Proof.
  intros Hq Hex Hpr. unfold get_experiment_priors.
  rewrite try_except_run. unfold bind. rewrite _query_run in Hq |- *.
  cbn [fst] in Hq. rewrite Hq. unfold lift. rewrite Hex, Hpr.
  unfold json_loads_value, lift, raise.
  destruct priors; try (eexists; split; [|reflexivity]; done).
  intros v ->. done.
Qed.

(** ** The flattened list of ensembles *)

(** X16: every field of an ensemble other than [name] reaches its record
    unchanged, and there is one record per ensemble. *)
Theorem ensemble_fields_carried_over self st data exps views :
  fst (_query E self GET_ALL_ENSEMBLES [] st) = Return data ->
  getitem data "experiments" = Return (PList exps) ->
  Forall2 (fun e v => is_experiment e (fst v) (snd v)) exps views ->
  Forall (fun v => Forall (fun ens => NoDup (dict_keys ens)) (snd v)) views ->
  exists records,
    fst (get_all_ensembles E self st) = Return (PList (map PDict records))
    /\ Forall2 (fun (ens : dict) r =>
                  forall k, k ≠ "name" -> dict_get r k = dict_get ens k)
               (flat_map snd views) records.
Proof.
  intros Hq Hexps Hviews Hnd.
  rewrite (get_all_ensembles_flat E _ _ _ _ _ Hq Hexps Hviews).
  eexists. split; [done|]. unfold flattened. clear Hq Hexps Hviews.
  induction Hnd as [|[name ensembles] views Hens _ IH]; simpl; [constructor|].
  apply Forall2_app; [|done]. clear IH. simpl in Hens.
  induction Hens as [|ens ensembles Hens _ IH]; simpl; constructor; [|done].
  intros k Hk. rewrite (dict_get_update _ _ _ Hens).
  destruct (dict_get ens k); [done|]. cbn [dict_get].
  destruct (String.eqb_spec "name" k); [congruence | done].
Qed.

(** X17: experiments without ensembles contribute nothing; their [name] is
    not even read, so it may be missing.  In particular no experiments give
    the empty list, and nothing is logged. *)
Theorem experiments_without_ensembles_give_nothing self st data exps :
  fst (_query E self GET_ALL_ENSEMBLES [] st) = Return data ->
  getitem data "experiments" = Return (PList exps) ->
  Forall (fun e => getitem e "ensembles" = Return (PList [])) exps ->
  get_all_ensembles E self st
  = (Return (PList []), add_call (query_request self GET_ALL_ENSEMBLES []) st).
Proof.
  intros Hq Hexps Hnone. unfold get_all_ensembles.
  rewrite try_except_run. unfold bind. rewrite _query_run in Hq |- *.
  cbn [fst] in Hq. rewrite Hq. unfold lift. rewrite Hexps.
  assert (all_ensembles (PList exps) = Return []) as ->; [|done].
  unfold all_ensembles. simpl. clear Hexps.
  assert (mapM experiment_ensembles exps = Return (map (fun _ => []) exps)) as ->.
  { induction Hnone as [|e exps He _ IH]; [done|]. cbn [mapM map].
    assert (experiment_ensembles e = Return []) as ->
      by (unfold experiment_ensembles; by rewrite He).
    cbn [obind]. rewrite IH. reflexivity. }
  simpl. f_equal. induction exps as [|e exps IH]; simpl; [done|].
  apply IH. by apply Forall_inv_tail in Hnone.
Qed.

(** ** Tables *)

(** X18: the table [get_ensemble_parameter_data] returns has the rows of the
    wire table as its columns and the columns as its rows: its labels are
    swapped, and the cell in row [r], column [c] of the wire table is the cell
    in row [c], column [r] of the result. *)
Theorem parameter_data_cells_swapped self i n st resp wire r c x :
  answer_to E st (request_of (GetParameterData i n) self) = Return resp ->
  status_code resp = 200 ->
  read_parquet E (content resp) = Return wire ->
  cell_at wire r c = Some x ->
  (c < length (columns wire))%nat ->
  exists out,
    fst (get_ensemble_parameter_data E self i n st) = Return out
    /\ columns out = index wire
    /\ index out = columns wire
    /\ cell_at out c r = Some x.
Proof.
  intros Hresp Hst Hwire Hcell Hc.
  rewrite (parameter_data_decoded E _ _ _ _ _ _ Hresp Hst Hwire).
  exists (transpose wire). split; [done|]. split; [done|].
  split; [apply transpose_index | by apply transpose_cell].
Qed.

(** X22: a record table without columns gives a table without rows: the
    coercion and the sort of an empty index both go through. *)
Theorem record_data_of_empty_table self i n st resp wire :
  answer_to E st (request_of (GetRecordData i n) self) = Return resp ->
  status_code resp = 200 ->
  read_parquet E (content resp) = Return wire ->
  columns wire = [] ->
  get_ensemble_record_data E self i n st
  = (Return (Frame (index wire) []), add_call (request_of (GetRecordData i n) self) st).
Proof.
  intros Hresp Hst Hwire Hempty.
  rewrite (record_data_decoded E _ _ _ _ _ _ Hresp Hst Hwire), coerce_and_sort_run.
  unfold transpose, index at 1. cbn [rows]. rewrite Hempty. reflexivity.
Qed.

(** ** The lookup facade *)

Lemma connection_info_fresh p st info auth tok :
  connection_info_map st !! p = None ->
  get_info E (lookups st) p = Return info ->
  dict_get info "auth" = Some auth ->
  getitem_int auth 1 = Return tok ->
  get_connection_info E p st
  = (Return (dict_set info "auth" tok),
     State (<[p := dict_set info "auth" tok]> (connection_info_map st))
           (_instances st) (heap st) (log st) (lookups st ++ [p]) (traffic st)).
Proof.
  intros Hnew Hinfo Hauth Htok.
  unfold get_connection_info, bind, gets, ret, call_get_info, lift,
    store_connection_info, modify.
  rewrite Hnew, Hinfo. simpl. rewrite Hauth, Htok. simpl.
  by rewrite lookup_insert_eq.
Qed.

(** X3: the mapping a fresh resolution stores and returns is the provider's
    with the [auth] entry replaced, in place, by its second component: the
    keys and their order are the provider's, and every other entry is
    untouched. *)
Theorem resolved_mapping_keeps_provider_entries p st info auth tok :
  connection_info_map st !! p = None ->
  get_info E (lookups st) p = Return info ->
  dict_get info "auth" = Some auth ->
  getitem_int auth 1 = Return tok ->
  exists stored,
    fst (get_connection_info E p st) = Return stored
    /\ dict_keys stored = dict_keys info
    /\ dict_get stored "auth" = Some tok
    /\ forall k, k ≠ "auth" -> dict_get stored k = dict_get info k.
Proof.
  intros Hnew Hinfo Hauth Htok.
  rewrite (connection_info_fresh _ _ _ _ _ Hnew Hinfo Hauth Htok).
  eexists. split; [done|]. split; [by rewrite dict_keys_set, Hauth|].
  split; [apply dict_get_set_eq|]. intros k Hk. apply dict_get_set_ne. congruence.
Qed.

Lemma DataLoader_call_typed url t : DataLoader_call [PStr url; token_value t] = __new__ url t.
Proof. by destruct t. Qed.

Lemma DataLoader_call_arity args :
  (3 <= length args)%nat ->
  DataLoader_call args
  = raise (Exn TypeError (Text "__new__() takes from 2 to 3 positional arguments")).
Proof.
  destruct args as [|x [|y [|z args]]]; simpl; try lia. intros _.
  destruct x; try done; destruct y; done.
Qed.

Lemma dict_set_length (d : dict) k v old :
  dict_get d k = Some old -> length (dict_set d k v) = length d.
Proof.
  induction d as [|[k' v'] d IH]; simpl; [done|].
  destruct (String.eqb k' k); simpl; [done|]. intros H. by rewrite IH.
Qed.

(** X19: [get_data_loader] takes the base URL and the token from the resolved
    mapping by position.  For a project id not resolved before, the first call
    asks the provider once and gives the loader registered for that URL and
    token; the second call gives the same loader and changes nothing, so the
    provider is not asked again and no second loader is made. *)
Theorem get_data_loader_resolves_once p st info auth t url :
  registry_ok st ->
  connection_info_map st !! p = None ->
  get_info E (lookups st) p = Return info ->
  dict_get info "auth" = Some auth ->
  getitem_int auth 1 = Return (token_value t) ->
  map snd (dict_set info "auth" (token_value t)) = [PStr url; token_value t] ->
  exists l o st1,
    get_data_loader E p st = (Return l, st1)
    /\ heap st1 !! l = Some o /\ baseurl o = url /\ token o = t
    /\ lookups st1 = lookups st ++ [p]
    /\ get_data_loader E p st1 = (Return l, st1).
Proof.
  intros Hok Hnew Hinfo Hauth Htok Hvalues.
  set (stored := dict_set info "auth" (token_value t)) in *.
  set (st' := State (<[p := stored]> (connection_info_map st))
                    (_instances st) (heap st) (log st) (lookups st ++ [p]) (traffic st)).
  assert (get_data_loader E p st = __new__ url t st') as Hfirst.
  { unfold get_data_loader, bind.
    rewrite (connection_info_fresh _ _ _ _ _ Hnew Hinfo Hauth Htok).
    fold stored. by rewrite Hvalues, DataLoader_call_typed. }
  assert (registry_ok st') as Hok' by exact Hok.
  destruct (new_registers url t st') as (l & Hl & Hreg).
  destruct (new_ok url t st' Hok' _ _ Hreg) as (o & Ho & Hkey).
  injection Hkey as Hb Ht.
  destruct (new_effect url t st') as (Hmap & _ & Hlook & _).
  exists l, o, (snd (__new__ url t st')).
  rewrite Hfirst. split; [by rewrite <- Hl; destruct (__new__ url t st')|].
  split; [done|]. split; [done|]. split; [done|]. split; [by rewrite Hlook|].
  unfold get_data_loader, bind.
  rewrite (connection_info_cached E p _ stored) by (rewrite Hmap; apply lookup_insert_eq).
  rewrite Hvalues, DataLoader_call_typed. by apply new_known.
Qed.

(** X20: through the facade the degradation is the same: when the server
    fails the GraphQL request, [get_ensembles] resolves the connection, makes
    or finds the loader, and returns the empty list with one [RuntimeError]
    logged. *)
Theorem get_ensembles_degrades_to_empty p st info auth t url :
  registry_ok st ->
  connection_info_map st !! p = None ->
  get_info E (lookups st) p = Return info ->
  dict_get info "auth" = Some auth ->
  getitem_int auth 1 = Return (token_value t) ->
  map snd (dict_set info "auth" (token_value t)) = [PStr url; token_value t] ->
  request_failed E ListAllEnsembles
                 {| baseurl := url; token := t; _graphql_cache := ∅ |} st = true ->
  exists e st2,
    get_ensembles E p st = (Return (PList []), st2)
    /\ exn_cls e = RuntimeError
    /\ log st2 = log st ++ [e]
    /\ lookups st2 = lookups st ++ [p]
    /\ connection_info_map st2 !! p = Some (dict_set info "auth" (token_value t)).
Proof.
  intros Hok Hnew Hinfo Hauth Htok Hvalues Hfail.
  set (stored := dict_set info "auth" (token_value t)) in *.
  set (st' := State (<[p := stored]> (connection_info_map st))
                    (_instances st) (heap st) (log st) (lookups st ++ [p]) (traffic st)).
  assert (get_data_loader E p st = __new__ url t st') as Hfirst.
  { unfold get_data_loader, bind.
    rewrite (connection_info_fresh _ _ _ _ _ Hnew Hinfo Hauth Htok).
    fold stored. by rewrite Hvalues, DataLoader_call_typed. }
  destruct (new_registers url t st') as (l & Hl & Hreg).
  destruct (new_ok url t st' Hok _ _ Hreg) as (o & Ho & Hkey).
  injection Hkey as Hb Ht.
  destruct (new_effect url t st') as (Hmap & Hlog & Hlook & Htraffic).
  set (st1 := snd (__new__ url t st')) in *.
  assert (request_failed E ListAllEnsembles o st1 = true) as Hfail1.
  { unfold request_failed, answer_to in Hfail |- *. cbn [request_of] in Hfail |- *.
    unfold query_request in Hfail |- *. simpl in Hfail. by rewrite Htraffic, Hb, Ht. }
  destruct (failed_request_degrades E _ _ _ Hfail1) as (e & He & Hperform).
  exists e, (add_log e (add_call (request_of ListAllEnsembles o) st1)).
  split.
  - unfold get_ensembles, bind. rewrite Hfirst.
    destruct (__new__ url t st') as [r s] eqn:Hnew'. simpl in Hl. subst r.
    unfold deref. replace s with st1 by (subst st1; rewrite ?Hnew'; reflexivity).
    rewrite Ho. unfold perform, bind, ret in Hperform.
    destruct (get_all_ensembles E o st1) as [[v|e'] s']; by simplify_eq.
  - simpl. rewrite Hlog, Hlook, Hmap. split; [done|]. split; [done|]. split; [done|].
    apply lookup_insert_eq.
Qed.

(** X21: the facade hands all values of the resolved mapping to the
    constructor: a provider answer with a third entry makes [get_data_loader]
    raise [TypeError] after the mapping was cached, so every later call for
    that id raises again without asking the provider. *)
Theorem get_data_loader_rejects_extra_entries p st info auth tok :
  connection_info_map st !! p = None ->
  get_info E (lookups st) p = Return info ->
  dict_get info "auth" = Some auth ->
  getitem_int auth 1 = Return tok ->
  (3 <= length info)%nat ->
  exists e st1,
    get_data_loader E p st = (Raise e, st1)
    /\ exn_cls e = TypeError
    /\ connection_info_map st1 !! p = Some (dict_set info "auth" tok)
    /\ lookups st1 = lookups st ++ [p]
    /\ get_data_loader E p st1 = (Raise e, st1).
Proof.
  intros Hnew Hinfo Hauth Htok Hlen.
  assert (3 <= length (map snd (dict_set info "auth" tok)))%nat as Hargs.
  { by rewrite length_map, (dict_set_length _ _ _ _ Hauth). }
  do 2 eexists. unfold get_data_loader, bind.
  rewrite (connection_info_fresh _ _ _ _ _ Hnew Hinfo Hauth Htok).
  rewrite (DataLoader_call_arity _ Hargs). unfold raise.
  split; [reflexivity|]. split; [done|]. simpl.
  split; [apply lookup_insert_eq|]. split; [done|].
  rewrite (connection_info_cached E p _ (dict_set info "auth" tok))
    by apply lookup_insert_eq.
  by rewrite (DataLoader_call_arity _ Hargs).
Qed.

End Coverage.

Example record_data_numeric :
  fst (get_ensemble_record_data (parquet_env wire_numeric) local_loader "e1" "FOPR" initial_state)
  = Return (Frame [LInt 0; LInt 1]
                  [(LInt 1, [CInt 10; CInt 11]); (LInt 2, [CInt 20; CInt 21]);
                   (LInt 3, [CInt 30; CInt 31])]).
Proof. reflexivity. Qed.

Example record_data_named :
  fst (get_ensemble_record_data (parquet_env wire_named) local_loader "e1" "FOPR" initial_state)
  = Return (transpose wire_named).
Proof. reflexivity. Qed.

Example record_data_overflow :
  fst (get_ensemble_record_data (parquet_env wire_overflow) local_loader "e1" "FOPR" initial_state)
  = Raise (Exn OverflowError (Text "Python int too large to convert to C long")).
Proof. reflexivity. Qed.

Example all_ensembles_named :
  fst (get_all_ensembles (fixed_env 200 "{}" (Return named_ensemble) not_a_table)
                         local_loader initial_state)
  = Return (PList [PDict [("name", PStr "default"); ("id", PInt 1)]]).
Proof. reflexivity. Qed.

Example caller_token_replaced :
  traffic (snd (_get server_error_env local_loader "x"
                     (Some [("Token", PStr "other"); ("accept", PStr "text/csv")]) None
                     initial_state))
  = [GET "http://127.0.0.1:51820/x"
         [("Token", PStr "secret"); ("accept", PStr "text/csv")] None].
Proof. reflexivity. Qed.

(** C1, counterexample: a 200 answer whose body is not JSON makes
    [get_ensemble_responses] raise [JSONDecodeError], and a [priors] field
    that is not JSON makes [get_experiment_priors] raise it; nothing is
    logged. *)
Lemma decode_failures_escape :
  perform (fixed_env 200 "<html>" not_json not_a_table) (GetEnsembleResponses "e1")
          local_loader initial_state
  = (Raise (Exn JSONDecodeError (Text "Expecting value")),
     add_call (request_of (GetEnsembleResponses "e1") local_loader) initial_state)
  /\ perform priors_env (GetExperimentPriors "x1") local_loader initial_state
  = (Raise (Exn JSONDecodeError (Text "Expecting value")),
     add_call (request_of (GetExperimentPriors "x1") local_loader) initial_state).
Proof. split; reflexivity. Qed.

Lemma handled_failures_degrade_to_empty_witness :
  request_failed server_error_env (GetExperimentPriors "x1") local_loader initial_state = true
  /\ fst (perform server_error_env (GetExperimentPriors "x1") local_loader initial_state)
     = Return (Doc (PDict []))
  /\ exists e, exn_cls e = RuntimeError
               /\ log (snd (perform server_error_env (GetExperimentPriors "x1")
                                    local_loader initial_state)) = [e].
Proof.
  split; [reflexivity|].
  apply (proj2 (proj2 (handled_failures_degrade_to_empty server_error_env
                         (GetExperimentPriors "x1") local_loader initial_state))).
  reflexivity.
Defined.

(** C2, counterexample: the cast of the labels [b], [a] fails with
    [TypeError], nothing is raised, and the rows come back in the order [a],
    [b], not in the order of the table. *)
Lemma named_rows_are_reordered :
  index_astype_int (cast_int (parquet_env wire_unsorted)) (columns wire_unsorted)
  = Raise (Exn TypeError (Text "Cannot cast Index to dtype int64"))
  /\ index wire_unsorted = [LStr "b"; LStr "a"]
  /\ columns wire_unsorted = [LStr "b"; LStr "a"]
  /\ fst (get_ensemble_record_data (parquet_env wire_unsorted) local_loader "e1" "FOPR"
                                   initial_state)
     = Return (Frame [LStr "b"; LStr "a"]
                     [(LStr "a", [CInt 2; CInt 4]); (LStr "b", [CInt 1; CInt 3])]).
Proof. repeat split; reflexivity. Qed.

Lemma record_data_coerced_and_sorted_witness :
  (exists out,
     fst (get_ensemble_record_data (parquet_env wire_numeric) local_loader "e1" "FOPR"
                                   initial_state) = Return out
     /\ index out ≡ₚ map LInt [3; 1; 2]
     /\ Sorted label_le (index out)
     /\ rows out ≡ₚ zip_with (fun z r => (LInt z, snd r)) [3; 1; 2]
                             (rows (transpose wire_numeric)))
  /\ (exists out,
        fst (get_ensemble_record_data (parquet_env wire_named) local_loader "e1" "FOPR"
                                      initial_state) = Return out
        /\ index out ≡ₚ columns wire_named
        /\ Sorted label_le (index out)
        /\ rows out ≡ₚ rows (transpose wire_named)
        /\ (Sorted label_le (columns wire_named) -> out = transpose wire_named))
  /\ fst (get_ensemble_record_data (parquet_env wire_overflow) local_loader "e1" "FOPR"
                                   initial_state)
     = Raise (Exn OverflowError (Text "Python int too large to convert to C long")).
Proof.
  split; [|split].
  - apply (proj1 (record_data_coerced_and_sorted (parquet_env wire_numeric) local_loader
                    "e1" "FOPR" initial_state (ok_response "PAR1") wire_numeric
                    eq_refl eq_refl eq_refl)).
    repeat constructor.
  - apply (proj1 (proj2 (record_data_coerced_and_sorted (parquet_env wire_named)
                           local_loader "e1" "FOPR" initial_state (ok_response "PAR1")
                           wire_named eq_refl eq_refl eq_refl))
             (Exn TypeError (Text "Cannot cast Index to dtype int64")));
      reflexivity.
  - apply (proj2 (proj2 (record_data_coerced_and_sorted (parquet_env wire_overflow)
                           local_loader "e1" "FOPR" initial_state (ok_response "PAR1")
                           wire_overflow eq_refl eq_refl eq_refl))).
    + reflexivity.
    + simpl. discriminate.
Defined.

Lemma connection_info_resolved_once_witness :
  let stored := [("baseurl", PStr "http://127.0.0.1:51820"); ("auth", PStr "secret")] in
  let st1 := snd (get_connection_info server_error_env None initial_state) in
  fst (get_connection_info server_error_env None initial_state) = Return stored
  /\ lookups st1 = [None]
  /\ connection_info_map st1 !! None = Some stored
  /\ get_connection_info server_error_env None st1 = (Return stored, st1)
  /\ lookups (snd (get_connection_info server_error_env None st1)) = [None].
Proof.
  apply (connection_info_resolved_once server_error_env None initial_state local_info
           (PList [PStr "__token__"; PStr "secret"]) (PStr "secret"));
    reflexivity.
Defined.

Lemma rest_failure_returns_empty_witness :
  exists e url st',
    perform server_error_env (GetRecordData "e1" "FOPR") local_loader initial_state
    = (Return (Table empty_frame), st')
    /\ e = Exn DataLoaderException (FetchFailed url 500 "Internal Server Error")
    /\ log st' = [e]
    /\ traffic st' = [request_of (GetRecordData "e1" "FOPR") local_loader].
Proof.
  apply (rest_failure_returns_empty server_error_env (GetRecordData "e1" "FOPR")
           local_loader initial_state
           {| status_code := 500; content := "Internal Server Error" |});
    [reflexivity | reflexivity | simpl; lia].
Defined.

(** C7, counterexample: for the wire table with columns ["3"; "1"; "2"],
    [get_ensemble_record_data] does not return the transpose: the first row
    of its result is labelled with the integer [1] and holds the cells of the
    second wire column, where the transpose has the first wire column under
    its label ["3"]. *)
Lemma record_data_is_not_the_transpose :
  exists out,
    fst (get_ensemble_record_data (parquet_env wire_numeric) local_loader "e1" "FOPR"
                                  initial_state) = Return out
    /\ out = Frame [LInt 0; LInt 1]
                   [(LInt 1, [CInt 10; CInt 11]); (LInt 2, [CInt 20; CInt 21]);
                    (LInt 3, [CInt 30; CInt 31])]
    /\ columns wire_numeric = [LStr "3"; LStr "1"; LStr "2"]
    /\ index out = [LInt 1; LInt 2; LInt 3]
    /\ cell_at wire_numeric 0 0 = Some (CInt 30)
    /\ cell_at out 0 0 = Some (CInt 10)
    /\ out ≠ transpose wire_numeric.
Proof. eexists. repeat split; try reflexivity. discriminate. Qed.

Lemma parameter_and_record_tables_transposed_witness :
  let sorted := Frame [LInt 0; LInt 1]
                      [(LInt 1, [CInt 10; CInt 11]); (LInt 2, [CInt 20; CInt 21]);
                       (LInt 3, [CInt 30; CInt 31])] in
  (exists out,
     fst (get_ensemble_parameter_data (parquet_env wire_numeric) local_loader "e1" "FOPR"
                                      initial_state) = Return out
     /\ columns out = index wire_numeric
     /\ index out = columns wire_numeric
     /\ Forall (fun row => length (snd row) = length (rows wire_numeric)) (rows out)
     /\ forall r c x,
          cell_at wire_numeric r c = Some x -> (c < length (columns wire_numeric))%nat ->
          cell_at out c r = Some x)
  /\ (columns sorted = index wire_numeric
      /\ Sorted label_le (index sorted)
      /\ exists order,
           order ≡ₚ seq 0 (length (columns wire_numeric))
           /\ Forall2 (fun j row =>
                        (exists l, columns wire_numeric !! j = Some l
                                   /\ (fst row = l
                                       \/ exists z, cast_int (parquet_env wire_numeric) l = inl z
                                                    /\ fst row = LInt z))
                        /\ length (snd row) = length (rows wire_numeric)
                        /\ forall r x, cell_at wire_numeric r j = Some x ->
                                       snd row !! r = Some x)
                      order (rows sorted))
  /\ fst (compute_misfit (parquet_env wire_numeric) local_loader "e1" "FOPR" true
                         initial_state) = Return wire_numeric.
Proof.
  split; [|split].
  - apply (proj1 (parameter_and_record_tables_transposed (parquet_env wire_numeric)
                    local_loader "e1" "FOPR" true initial_state)
             (ok_response "PAR1") wire_numeric);
      reflexivity.
  - apply (proj1 (proj2 (parameter_and_record_tables_transposed (parquet_env wire_numeric)
                           local_loader "e1" "FOPR" true initial_state))
             (ok_response "PAR1") wire_numeric);
      reflexivity.
  - apply (proj2 (proj2 (parameter_and_record_tables_transposed (parquet_env wire_numeric)
                           local_loader "e1" "FOPR" true initial_state))
             (ok_response "PAR1") wire_numeric);
      reflexivity.
Defined.

Lemma all_ensembles_in_experiment_order_witness :
  fst (get_all_ensembles (fixed_env 200 "{}" (Return two_experiments) not_a_table)
                         local_loader initial_state)
  = Return (PList [PDict [("name", PStr "A"); ("id", PInt 1)];
                   PDict [("name", PStr "B"); ("id", PInt 2)];
                   PDict [("name", PStr "B"); ("id", PInt 3)]])
  /\ log (snd (get_all_ensembles (fixed_env 200 "{}" (Return two_experiments) not_a_table)
                                 local_loader initial_state)) = [].
Proof.
  apply (all_ensembles_in_experiment_order
           (fixed_env 200 "{}" (Return two_experiments) not_a_table)
           local_loader initial_state
           (PDict [("experiments", PList [
              PDict [("name", PStr "A"); ("ensembles", PList [PDict [("id", PInt 1)]])];
              PDict [("name", PStr "B");
                     ("ensembles", PList [PDict [("id", PInt 2)]; PDict [("id", PInt 3)]])]])])
           _ two_experiment_views eq_refl eq_refl).
  repeat constructor; eexists; repeat split; reflexivity.
Defined.

Lemma ensemble_name_overrides_experiment_witness :
  exists records,
    fst (get_all_ensembles (fixed_env 200 "{}" (Return named_ensemble) not_a_table)
                           local_loader initial_state)
    = Return (PList (map PDict records))
    /\ Forall2 (fun (ne : pyval * dict) r =>
                  dict_get r "name" = Some (default (fst ne) (dict_get (snd ne) "name")))
               [(PStr "A", [("id", PInt 1); ("name", PStr "default")])] records.
Proof.
  apply (ensemble_name_overrides_experiment
           (fixed_env 200 "{}" (Return named_ensemble) not_a_table)
           local_loader initial_state
           (PDict [("experiments", PList [
              PDict [("name", PStr "A");
                     ("ensembles", PList [PDict [("id", PInt 1); ("name", PStr "default")]])]])])
           _ [(PStr "A", [[("id", PInt 1); ("name", PStr "default")]])] eq_refl eq_refl).
  - repeat constructor; eexists; repeat split; reflexivity.
  - repeat constructor; simpl; intros H; inversion H; subst;
      repeat match goal with
             | H : _ ∈ _ |- _ => inversion H; clear H; subst
             end.
Defined.

(** ** The further properties at work *)

Lemma connection_info_kept_without_lookup_witness :
  let st := snd (get_connection_info server_error_env None initial_state) in
  let later := run server_error_env
                   [Construct "http://127.0.0.1:51820" (Some "secret");
                    ResolveConnection None;
                    Call 0 (GetEnsemble "e1")] st in
  lookups later = lookups st
  /\ connection_info_map later = connection_info_map st
  /\ get_connection_info server_error_env None later = (Return resolved_info, later).
Proof.
  intros st later.
  assert (lookups later = lookups st) as Hquiet by (vm_compute; reflexivity).
  split; [exact Hquiet|]. split.
  - apply (proj1 (connection_info_kept_without_lookup server_error_env _ st Hquiet)).
  - apply (proj2 (connection_info_kept_without_lookup server_error_env _ st Hquiet)
             None resolved_info).
    vm_compute. reflexivity.
Defined.

Lemma failed_resolution_is_not_cached_witness :
  let st' := snd (get_connection_info offline_env None initial_state) in
  connection_info_map st' = connection_info_map initial_state
  /\ lookups st' = [None]
  /\ lookups (snd (get_connection_info offline_env None st')) = [None; None].
Proof.
  apply (failed_resolution_is_not_cached offline_env None initial_state
           (Exn RuntimeError (Text "No Storage connection configured")));
    reflexivity.
Defined.

Lemma query_outcome_witness :
  fst (_query server_error_env local_loader GET_PRIORS [("id", PStr "x1")] initial_state)
  = Raise (Exn RuntimeError (QueryFailed 500 (inr "Internal Server Error"))).
Proof.
  apply (proj1 (query_outcome server_error_env local_loader GET_PRIORS [("id", PStr "x1")]
                  initial_state
                  {| status_code := 500; content := "Internal Server Error" |} eq_refl)
           (Exn JSONDecodeError (Text "Expecting value")));
    reflexivity.
Defined.

Lemma graphql_answer_without_data_escapes_witness :
  exists e,
    perform (json_env graphql_error) (GetEnsemble "e1") local_loader initial_state
    = (Raise e, add_call (request_of (GetEnsemble "e1") local_loader) initial_state)
    /\ (exn_cls e = KeyError \/ exn_cls e = TypeError).
Proof.
  apply (graphql_answer_without_data_escapes (json_env graphql_error) (GetEnsemble "e1")
           local_loader initial_state (ok_response "{}") graphql_error);
    try reflexivity.
  right. reflexivity.
Defined.

Lemma transport_exception_propagates_witness :
  perform offline_env (GetRecordLabels "e1" "FOPR") local_loader initial_state
  = (Raise connection_refused,
     add_call (request_of (GetRecordLabels "e1" "FOPR") local_loader) initial_state).
Proof.
  apply (transport_exception_propagates offline_env (GetRecordLabels "e1" "FOPR")
           local_loader initial_state connection_refused);
    [reflexivity | simpl; discriminate].
Defined.

Lemma table_decoder_failure_escapes_witness :
  perform (fixed_env 200 "<html>" not_json not_a_table) (ComputeMisfit "e1" "FOPR" true)
          local_loader initial_state
  = (Raise (Exn (OtherError "ArrowInvalid") (Text "Parquet magic bytes not found")),
     add_call (request_of (ComputeMisfit "e1" "FOPR" true) local_loader) initial_state).
Proof.
  apply (table_decoder_failure_escapes (fixed_env 200 "<html>" not_json not_a_table)
           (ComputeMisfit "e1" "FOPR" true) local_loader initial_state
           (ok_response "<html>"));
    [reflexivity | reflexivity | reflexivity | simpl; discriminate].
Defined.

Lemma rest_json_body_returned_as_is_witness :
  perform (json_env (PDict [("detail", PStr "Not a list")])) (GetEnsembleParameters "e1")
          local_loader initial_state
  = (Return (Doc (PDict [("detail", PStr "Not a list")])),
     add_call (request_of (GetEnsembleParameters "e1") local_loader) initial_state).
Proof.
  apply (rest_json_body_returned_as_is (json_env (PDict [("detail", PStr "Not a list")]))
           (GetEnsembleParameters "e1") local_loader initial_state (ok_response "{}"));
    reflexivity.
Defined.

Lemma priors_field_decoded_again_witness :
  get_experiment_priors priors_ok_env local_loader "x1" initial_state
  = (Return (PDict []),
     add_call (query_request local_loader GET_PRIORS [("id", PStr "x1")]) initial_state).
Proof.
  apply (priors_field_decoded_again priors_ok_env local_loader "x1" initial_state
           (PDict [("experiment", PDict [("priors", PStr "{}")])])
           (PDict [("priors", PStr "{}")]) (PStr "{}") eq_refl eq_refl eq_refl).
  reflexivity.
Defined.

Lemma ensemble_fields_carried_over_witness :
  exists records,
    fst (get_all_ensembles (json_env named_ensemble) local_loader initial_state)
    = Return (PList (map PDict records))
    /\ Forall2 (fun (ens : dict) r =>
                  forall k, k ≠ "name" -> dict_get r k = dict_get ens k)
               [[("id", PInt 1); ("name", PStr "default")]] records.
Proof.
  apply (ensemble_fields_carried_over (json_env named_ensemble) local_loader initial_state
           (PDict [("experiments", PList [
              PDict [("name", PStr "A");
                     ("ensembles", PList [PDict [("id", PInt 1); ("name", PStr "default")]])]])])
           _ [(PStr "A", [[("id", PInt 1); ("name", PStr "default")]])] eq_refl eq_refl).
  - repeat constructor; eexists; repeat split; reflexivity.
  - repeat constructor; simpl; intros H; inversion H; subst;
      repeat match goal with
             | H : _ ∈ _ |- _ => inversion H; clear H; subst
             end.
Defined.

Lemma experiments_without_ensembles_give_nothing_witness :
  get_all_ensembles (json_env bare_experiment) local_loader initial_state
  = (Return (PList []), add_call (query_request local_loader GET_ALL_ENSEMBLES []) initial_state).
Proof.
  apply (experiments_without_ensembles_give_nothing (json_env bare_experiment) local_loader
           initial_state
           (PDict [("experiments", PList [PDict [("ensembles", PList [])]])])
           [PDict [("ensembles", PList [])]] eq_refl eq_refl).
  repeat constructor.
Defined.

Lemma parameter_data_cells_swapped_witness :
  exists out,
    fst (get_ensemble_parameter_data (parquet_env wire_square) local_loader "e1" "PORO"
                                     initial_state) = Return out
    /\ columns out = index wire_square
    /\ index out = columns wire_square
    /\ cell_at out 1 0 = Some (CInt 2).
Proof.
  apply (parameter_data_cells_swapped (parquet_env wire_square) local_loader "e1" "PORO"
           initial_state (ok_response "PAR1") wire_square 0%nat 1%nat (CInt 2));
    [reflexivity | reflexivity | reflexivity | reflexivity | simpl; lia].
Defined.

Lemma get_data_loader_resolves_once_witness :
  exists l o st1,
    get_data_loader server_error_env None initial_state = (Return l, st1)
    /\ heap st1 !! l = Some o
    /\ baseurl o = "http://127.0.0.1:51820" /\ token o = Some "secret"
    /\ lookups st1 = [None]
    /\ get_data_loader server_error_env None st1 = (Return l, st1).
Proof.
  apply (get_data_loader_resolves_once server_error_env None initial_state local_info
           (PList [PStr "__token__"; PStr "secret"]) (Some "secret")
           "http://127.0.0.1:51820" initial_ok);
    reflexivity.
Defined.

Lemma get_ensembles_degrades_to_empty_witness :
  exists e st2,
    get_ensembles server_error_env None initial_state = (Return (PList []), st2)
    /\ exn_cls e = RuntimeError
    /\ log st2 = [e]
    /\ lookups st2 = [None]
    /\ connection_info_map st2 !! None = Some resolved_info.
Proof.
  apply (get_ensembles_degrades_to_empty server_error_env None initial_state local_info
           (PList [PStr "__token__"; PStr "secret"]) (Some "secret")
           "http://127.0.0.1:51820" initial_ok);
    reflexivity.
Defined.

Lemma get_data_loader_rejects_extra_entries_witness :
  exists e st1,
    get_data_loader verbose_info_env None initial_state = (Raise e, st1)
    /\ exn_cls e = TypeError
    /\ connection_info_map st1 !! None
       = Some (resolved_info ++ [("cert", PNone)])
    /\ lookups st1 = [None]
    /\ get_data_loader verbose_info_env None st1 = (Raise e, st1).
Proof.
  apply (get_data_loader_rejects_extra_entries verbose_info_env None initial_state
           (local_info ++ [("cert", PNone)])
           (PList [PStr "__token__"; PStr "secret"]) (PStr "secret"));
    [reflexivity | reflexivity | reflexivity | reflexivity | simpl; lia].
Defined.

Lemma record_data_of_empty_table_witness :
  get_ensemble_record_data (parquet_env (Frame [] [(LInt 0, []); (LInt 1, [])]))
                           local_loader "e1" "FOPR" initial_state
  = (Return (Frame [LInt 0; LInt 1] []),
     add_call (request_of (GetRecordData "e1" "FOPR") local_loader) initial_state).
Proof.
  apply (record_data_of_empty_table (parquet_env (Frame [] [(LInt 0, []); (LInt 1, [])]))
           local_loader "e1" "FOPR" initial_state (ok_response "PAR1")
           (Frame [] [(LInt 0, []); (LInt 1, [])]));
    reflexivity.
Defined.

Lemma resolved_mapping_keeps_provider_entries_witness :
  exists stored,
    fst (get_connection_info server_error_env None initial_state) = Return stored
    /\ dict_keys stored = ["baseurl"; "auth"]
    /\ dict_get stored "auth" = Some (PStr "secret")
    /\ forall k, k ≠ "auth" -> dict_get stored k = dict_get local_info k.
Proof.
  apply (resolved_mapping_keeps_provider_entries server_error_env None initial_state
           local_info (PList [PStr "__token__"; PStr "secret"]) (PStr "secret"));
    reflexivity.
Defined.
